(** * Funding-rate chart of v4-web: the rate projector and the view state

    The development follows [FundingChart] (the component with
    [getAllFundingRates]) and the [FundingDirection] enum of
    [src/constants/markets.ts].

    JavaScript numbers are IEEE-754 binary64 values; they are embedded as the
    Standard Library's [spec_float] at precision 53 and maximal exponent
    1024, with the library's own multiplication and comparisons.  Conversions
    between numbers and decimal strings (which the arbitrary-precision helper
    goes through) are written over [Q]. *)

From Stdlib Require Import ZArith QArith Qround Qabs Qpower Lia Lqa Bool List String.
From Stdlib Require Import SpecFloat.
From Stdlib Require Import Ascii DecimalString DecimalN.
Import ListNotations.

Local Open Scope Z_scope.

(* ================================================================= *)
(** ** JavaScript numbers *)

Module JsNumber.

(** The type of numbers. *)
Abbreviation number := spec_float.

Definition prec : Z := 53.
Definition emax : Z := 1024.

(** An integer literal of the source, as the number it denotes. *)
Definition of_Z (z : Z) : number := binary_normalize prec emax z 0 false.

Definition NaN : number := S754_nan.
Definition zero : number := S754_zero false.

(** [a * b], [a < b], [a > b] and [a == b] on numbers. *)
Definition num_mul (a b : number) : number := SFmul prec emax a b.
Definition num_lt (a b : number) : bool := SFltb a b.
Definition num_gt (a b : number) : bool := SFltb b a.

(** The values a JavaScript number can take. *)
Definition valid (x : number) : bool := valid_binary prec emax x.

Definition is_finite (x : number) : bool :=
  match x with
  | S754_zero _ | S754_finite _ _ _ => true
  | _ => false
  end.

(** Identity of two numbers (the same bits, NaN payloads apart). *)
Definition same (a b : number) : bool :=
  match a, b with
  | S754_nan, S754_nan => true
  | S754_zero s, S754_zero t => Bool.eqb s t
  | S754_infinity s, S754_infinity t => Bool.eqb s t
  | S754_finite s m e, S754_finite t n f =>
      Bool.eqb s t && Pos.eqb m n && Z.eqb e f
  | _, _ => false
  end.

(** Truthiness: [NaN], [0] and [-0] are falsy. *)
Definition truthy (x : number) : bool :=
  match x with
  | S754_nan | S754_zero _ => false
  | _ => true
  end.

(** [a || b] on numbers. *)
Definition num_or (a b : number) : number := if truthy a then a else b.

Definition pow2 (k : Z) : Q := Qpower 2 k.
Definition pow10 (k : Z) : Q := Qpower 10 k.

(** The real number a finite number stands for (0 for the others). *)
Definition val (x : number) : Q :=
  match x with
  | S754_finite s m e =>
      if s then - (inject_Z (Z.pos m) * pow2 e)
      else inject_Z (Z.pos m) * pow2 e
  | _ => 0%Q
  end.

(** *** Rounding a positive real to the nearest number, ties to even

    This is what reading a decimal string as a number does
    ([StringToNumber], applied by unary [+]). *)

(** [flog2 q] is the integer [l] with [2^l <= q < 2^(l+1)]. *)
Definition flog2 (q : Q) : Z :=
  let k := Z.log2 (Qnum q) - Z.log2 (Z.pos (Qden q)) in
  if Qle_bool (pow2 k) q then k else k - 1.

(** Nearest integer, ties to even. *)
Definition rne (t : Q) : Z :=
  let f := Qfloor t in
  match Qcompare (t - inject_Z f) (1 # 2) with
  | Lt => f
  | Gt => f + 1
  | Eq => if Z.even f then f else f + 1
  end.

(** A raw significand and exponent as a number: a carry out of the 53 bits
    moves to the next binade, too large an exponent gives an infinity, a
    vanishing significand gives a zero. *)
Definition pack (s : bool) (m e : Z) : number :=
  let '(m, e) := if m =? 2 ^ 53 then (2 ^ 52, e + 1) else (m, e) in
  match m with
  | Z.pos p => if e <=? 971 then S754_finite s p e else S754_infinity s
  | _ => S754_zero s
  end.

Definition round_pos (s : bool) (q : Q) : number :=
  let e := Z.max (flog2 q - 52) (-1074) in
  pack s (rne (q / pow2 e)) e.

(** *** Writing a number in decimal: [Number::toString]

    The digits [s] and the exponent [n - k] are such that [s * 10^(n-k)]
    reads back as the number, with as few digits [k] as possible, and among
    those the closest to the number. *)

Fixpoint digits10_fuel (fuel : nat) (n : Z) : Z :=
  match fuel with
  | O => 0
  | S f => if n <? 10 then 1 else 1 + digits10_fuel f (n / 10)
  end.

Definition digits10 (n : Z) : Z :=
  digits10_fuel (S (Z.to_nat (Z.log2 n))) n.

(** [flog10 q] is the integer [l] with [10^l <= q < 10^(l+1)]. *)
Definition flog10 (q : Q) : Z :=
  let k := digits10 (Qnum q) - digits10 (Z.pos (Qden q)) in
  if Qle_bool (pow10 k) q then k else k - 1.

(** The candidate with [k] digits, if one reads back as [x]: the multiples
    of [10^(n-k)] just below and just above [v].  The upper one may be
    [10^k] itself, which is the decimal 1 with a larger exponent. *)
Definition candidate (x : number) (v : Q) (n k : Z) : option (positive * Z) :=
  let scale := pow10 (n - k) in
  let lo := Qfloor (v / scale) in
  let hi := lo + 1 in
  let vlo := (inject_Z lo * scale)%Q in
  let vhi := (inject_Z hi * scale)%Q in
  let oklo := (0 <? lo) && same (round_pos false vlo) x in
  let okhi := same (round_pos false vhi) x in
  let take z := Some (Z.to_pos z, n - k) in
  match oklo, okhi with
  | true, false => take lo
  | false, true => take hi
  | false, false => None
  | true, true =>
      match Qcompare (v - vlo) (vhi - v) with
      | Lt => take lo
      | Gt => take hi
      | Eq => if Z.even lo then take lo else take hi
      end
  end.

Fixpoint shortest (fuel : nat) (x : number) (v : Q) (n k : Z)
  : option (positive * Z) :=
  match fuel with
  | O => None
  | S f =>
      match candidate x v n k with
      | Some d => Some d
      | None => shortest f x v n (k + 1)
      end
  end.

(** The binary expansion written out in full: every finite number is a
    decimal with finitely many digits. *)
Definition exact_decimal (m : positive) (e : Z) : positive * Z :=
  if 0 <=? e then (Z.to_pos (Z.pos m * 2 ^ e), 0)
  else (Z.to_pos (Z.pos m * 5 ^ (- e)), e).

(** Digits and decimal exponent of the positive number [m * 2^e].
    Seventeen significant digits identify any binary64 value; the full
    expansion closes the search. *)
Definition toDecimal (m : positive) (e : Z) : positive * Z :=
  let x := S754_finite false m e in
  let v := val x in
  match shortest 17 x v (flog10 v + 1) 1 with
  | Some d => d
  | None => exact_decimal m e
  end.

Definition dec_val (d : positive * Z) : Q :=
  (inject_Z (Z.pos (fst d)) * pow10 (snd d))%Q.

End JsNumber.

Import JsNumber.

(* ================================================================= *)
(** ** The arbitrary-precision decimal helper *)

Module BigNumberJs.

(** The values of bignumber.js, the decimal library behind [MustBigNumber]:
    a decimal number of unbounded precision (a sign, a coefficient and a
    power of ten), an infinity or NaN.  The library keeps the coefficient as
    an array of digits; its exponent limit of 1e9 is far outside anything a
    binary64 value times a four-digit integer reaches and is left out. *)
Inductive BigNumber :=
| BN_NaN
| BN_Infinity (s : bool)
| BN_zero (s : bool)
| BN_finite (s : bool) (c : positive) (e : Z).

(** [new BigNumber(v)] for a number [v]: the sign is taken first, the digits
    are those of [String(v)]. *)
Definition new_BigNumber (v : number) : BigNumber :=
  match v with
  | S754_nan => BN_NaN
  | S754_infinity s => BN_Infinity s
  | S754_zero s => BN_zero s
  | S754_finite s m e => let '(c, k) := toDecimal m e in BN_finite s c k
  end.

(** [x.times(y)]: exact, no rounding. *)
Definition times (x : BigNumber) (y : number) : BigNumber :=
  match x, new_BigNumber y with
  | BN_NaN, _ | _, BN_NaN => BN_NaN
  | BN_zero _, BN_Infinity _ | BN_Infinity _, BN_zero _ => BN_NaN
  | BN_Infinity s, BN_Infinity t
  | BN_Infinity s, BN_finite t _ _
  | BN_finite s _ _, BN_Infinity t => BN_Infinity (xorb s t)
  | BN_zero s, BN_zero t
  | BN_zero s, BN_finite t _ _
  | BN_finite s _ _, BN_zero t => BN_zero (xorb s t)
  | BN_finite s c e, BN_finite t d f => BN_finite (xorb s t) (c * d) (e + f)
  end.

(** [x.toNumber()], that is [+valueOf(x)]: the decimal is written out and
    read back as a number. *)
Definition toNumber (x : BigNumber) : number :=
  match x with
  | BN_NaN => S754_nan
  | BN_Infinity s => S754_infinity s
  | BN_zero s => S754_zero s
  | BN_finite s c e => round_pos s (dec_val (c, e))
  end.

(** Modelled from the spec: [MustBigNumber] of [@/lib/numbers] is not among
    the sources.  The spec gives the rate "default 0 if absent"; the helper
    is taken to be the decimal library's constructor with that same default,
    [new BigNumber(amount || 0)], which the calls [.times(..).toNumber()] on
    its result fit. *)
Definition MustBigNumber (amount : number) : BigNumber :=
  new_BigNumber (num_or amount zero).

End BigNumberJs.

Import BigNumberJs.

(* ================================================================= *)
(** ** Enumerations *)

(** Modelled from the spec: [FundingRateResolution] of [@/constants/charts]
    is not among the sources; the spec's data model gives it as the
    enumerated value OneHour | EightHour | Annualized, a string enum whose
    members are named by their values. *)
Inductive FundingRateResolution := OneHour | EightHour | Annualized.

(** [FundingDirection] of [src/constants/markets.ts], in declaration order. *)
Inductive FundingDirection := ToShort | ToLong | None_.

(* ================================================================= *)
(** ** The rate projector *)

(** The object [getAllFundingRates] returns, one property per resolution. *)
Record AllFundingRates := {
  rate_OneHour : number;
  rate_EightHour : number;
  rate_Annualized : number
}.

(** [rates[view]] *)
Definition rate_at (rates : AllFundingRates) (view : FundingRateResolution)
  : number :=
  match view with
  | OneHour => rate_OneHour rates
  | EightHour => rate_EightHour rates
  | Annualized => rate_Annualized rates
  end.

(** [getAllFundingRates(oneHourRate = 0)].  An absent argument is [None]. *)
Definition getAllFundingRates (arg : option number) : AllFundingRates :=
  let oneHourRate := match arg with Some r => r | None => of_Z 0 end in
  {| rate_OneHour := oneHourRate;
     rate_EightHour := toNumber (times (MustBigNumber oneHourRate) (of_Z 8));
     rate_Annualized :=
       toNumber (times (MustBigNumber oneHourRate)
                       (num_mul (of_Z 24) (of_Z 365))) |}.

(* ================================================================= *)
(** ** The component [FundingChart] *)

Local Open Scope string_scope.
Local Open Scope Z_scope.

(** One sample of the series ([FundingChartDatum] of [@/constants/charts]). *)
Record FundingChartDatum := {
  time : number;
  fundingRate : number;
  direction : FundingDirection
}.

(** The string a member of a string enum evaluates to. *)
Definition FundingDirection_value (d : FundingDirection) : string :=
  match d with
  | ToShort => "ToShort"
  | ToLong => "ToLong"
  | None_ => "None"
  end.

Definition FundingRateResolution_value (v : FundingRateResolution) : string :=
  match v with
  | OneHour => "OneHour"
  | EightHour => "EightHour"
  | Annualized => "Annualized"
  end.

(** [Object.keys(FundingRateResolution)], in declaration order. *)
Definition FundingRateResolution_keys : list string :=
  ["OneHour"; "EightHour"; "Annualized"].

(** [rate as FundingRateResolution]: the member a key string stands for. *)
Definition as_FundingRateResolution (rate : string)
  : option FundingRateResolution :=
  if String.eqb rate "OneHour" then Some OneHour
  else if String.eqb rate "EightHour" then Some EightHour
  else if String.eqb rate "Annualized" then Some Annualized
  else None.

(** An object literal with computed string keys, and [obj[key]]
    ([None] is [undefined]). *)
Definition object (A : Type) := list (string * A).

Fixpoint lookup {A : Type} (obj : object A) (key : string) : option A :=
  match obj with
  | [] => None
  | (k, v) :: rest => if String.eqb k key then Some v else lookup rest key
  end.

(** Evaluation that may throw. *)
Inductive JsError := TypeError.

Inductive completion (A : Type) :=
| Normal (a : A)
| Throw (e : JsError).

Arguments Normal {A} a.
Arguments Throw {A} e.

Definition bind {A B : Type} (c : completion A) (k : A -> completion B)
  : completion B :=
  match c with
  | Normal a => k a
  | Throw e => Throw e
  end.

Notation "x <- c ;; k" := (bind c (fun x => k))
  (at level 61, c at next level, right associativity).

(** Reading a property of a value that may be [undefined]. *)
Definition deref {A : Type} (v : option A) : completion A :=
  match v with
  | Some a => Normal a
  | None => Throw TypeError
  end.

(** [ToNumber] of a value that is a number or [undefined]. *)
Definition ToNumber (v : option number) : number :=
  match v with
  | Some n => n
  | None => NaN
  end.

(** [data[i]] on an array: [undefined] outside of it. *)
Definition at_index {A : Type} (l : list A) (i : Z) : option A :=
  if i <? 0 then None else nth_error l (Z.to_nat i).

(** [data?.[data.length - 1]] *)
Definition latestDatum (data : option (list FundingChartDatum))
  : option FundingChartDatum :=
  match data with
  | None => None
  | Some l => at_index l (Z.of_nat (List.length l) - 1)
  end.

(** The tooltip context the chart hands to [onTooltipContext]
    ([TooltipContextType] of the charting library, the fields used here). *)
Record NearestDatum := { datum : FundingChartDatum; datum_index : Z }.

Record TooltipData := { nearestDatum : option NearestDatum }.

Record TooltipContext := {
  tooltipOpen : bool;
  tooltipData : option TooltipData
}.

(** The two [useState] cells. *)
Record State := {
  fundingRateView : FundingRateResolution;
  tooltipContext : option TooltipContext
}.

(** The state on mount: [useState(FundingRateResolution.OneHour)] and
    [useState()]. *)
Definition mount : State :=
  {| fundingRateView := OneHour; tooltipContext := None |}.

Definition setFundingRateView (v : FundingRateResolution) (st : State) : State :=
  {| fundingRateView := v; tooltipContext := tooltipContext st |}.

Definition setTooltipContext (c : TooltipContext) (st : State) : State :=
  {| fundingRateView := fundingRateView st; tooltipContext := Some c |}.

(** What can happen to a mounted component: the toggle's [onValueChange]
    and the chart's [onTooltipContext]. *)
Inductive Event :=
| onValueChange (v : FundingRateResolution)
| onTooltipContext (c : TooltipContext).

Definition handle (st : State) (ev : Event) : State :=
  match ev with
  | onValueChange v => setFundingRateView v st
  | onTooltipContext c => setTooltipContext c st
  end.

Definition run (evs : list Event) (st : State) : State :=
  fold_left handle evs st.

(** [latestDatum && getAllFundingRates(latestDatum.fundingRate)[fundingRateView]] *)
Definition latestFundingRate (data : option (list FundingChartDatum))
  (st : State) : option number :=
  match latestDatum data with
  | None => None
  | Some d =>
      Some (rate_at (getAllFundingRates (Some (fundingRate d)))
                    (fundingRateView st))
  end.

(** The curves of [@visx/curve] the series chooses from. *)
Inductive Curve := curveMonotoneX | curveStepAfter.

(** [getCurve: ({ zoom }) => (zoom > 12 ? curveMonotoneX : curveStepAfter)] *)
Definition getCurve (zoom : number) : Curve :=
  if num_gt zoom (of_Z 12) then curveMonotoneX else curveStepAfter.

Inductive OutputType := DateTime | SmallPercent.

(** The props of the axis labels. *)
Record XAxisLabelOutput := {
  x_type : OutputType;
  x_value : number
}.

Record YAxisLabelOutput := {
  y_type : OutputType;
  y_value : number;
  accentColor : option string
}.

(** The object literal indexed by [tooltipDatum.direction]. *)
Definition accentColors : object string :=
  [ (FundingDirection_value ToLong, "var(--color-negative)");
    (FundingDirection_value ToShort, "var(--color-positive)");
    (FundingDirection_value None_, "var(--color-layer-6)") ].

Definition directionColor (d : FundingDirection) : option string :=
  lookup accentColors (FundingDirection_value d).

(** [tooltipData!.nearestDatum?.datum ?? latestDatum] *)
Definition tooltipDatum (data : option (list FundingChartDatum))
  (td : option TooltipData) : completion (option FundingChartDatum) :=
  t <- deref td ;;
  Normal match nearestDatum t with
         | Some nd => Some (datum nd)
         | None => latestDatum data
         end.

Definition renderXAxisLabel (data : option (list FundingChartDatum))
  (td : option TooltipData) : completion XAxisLabelOutput :=
  o <- tooltipDatum data td ;;
  d <- deref o ;;
  Normal {| x_type := DateTime; x_value := time d |}.

Definition renderYAxisLabel (data : option (list FundingChartDatum))
  (st : State) (td : option TooltipData) : completion YAxisLabelOutput :=
  o <- tooltipDatum data td ;;
  d <- deref o ;;
  Normal {| y_type := SmallPercent;
            y_value := rate_at (getAllFundingRates (Some (fundingRate d)))
                               (fundingRateView st);
            accentColor := directionColor (direction d) |}.

(** The keys of [STRING_KEYS] the component asks for. *)
Inductive STRING_KEY :=
| RATE_1H | RATE_8H | ANNUALIZED
| CURRENT_RATE_1H | CURRENT_RATE_8H | CURRENT_ANNUALIZED_RATE.

(** One entry of the toggle. *)
Record ToggleItem := {
  item_value : string;
  item_label : string
}.

(** The current-rate overlay and the toggle, as rendered. *)
Record View := {
  toggle_items : list ToggleItem;
  toggle_value : FundingRateResolution;
  overlay_isShowing : bool;
  overlay_title : option string;
  output_value : option number;
  output_isNegative : bool
}.

(** [Styled.CurrentFundingRate]: [opacity: 0] unless [isShowing]. *)
Definition overlay_hidden (v : View) : bool := negb (overlay_isShowing v).

(** [Styled.Output]: the colour the flag selects. *)
Definition output_color (isNegative : bool) : string :=
  if isNegative then "var(--color-negative)" else "var(--color-positive)".

Section Render.

(** The localization lookup of [useStringGetter]; a key without a string
    gives [None]. *)
Variable stringGetter : STRING_KEY -> option string.

(** [a || ''] on strings that may be [undefined]. *)
Definition or_empty (a : option string) : string :=
  match a with
  | Some s => if String.eqb s EmptyString then EmptyString else s
  | None => EmptyString
  end.

Definition toggleLabels : object (option string) :=
  [ (FundingRateResolution_value OneHour, stringGetter RATE_1H);
    (FundingRateResolution_value EightHour, stringGetter RATE_8H);
    (FundingRateResolution_value Annualized, stringGetter ANNUALIZED) ].

Definition overlayTitles : object (option string) :=
  [ (FundingRateResolution_value OneHour, stringGetter CURRENT_RATE_1H);
    (FundingRateResolution_value EightHour, stringGetter CURRENT_RATE_8H);
    (FundingRateResolution_value Annualized,
     stringGetter CURRENT_ANNUALIZED_RATE) ].

(** [Object.keys(FundingRateResolution).map(...)] *)
Definition toggleItems : list ToggleItem :=
  map (fun rate =>
         {| item_value := rate;
            item_label :=
              or_empty (match lookup toggleLabels rate with
                        | Some l => l
                        | None => None
                        end) |})
      FundingRateResolution_keys.

(** [!tooltipContext?.tooltipOpen] *)
Definition isShowing (st : State) : bool :=
  negb match tooltipContext st with
       | Some c => tooltipOpen c
       | None => false
       end.

Definition render (data : option (list FundingChartDatum)) (st : State)
  : View :=
  let rate := latestFundingRate data st in
  {| toggle_items := toggleItems;
     toggle_value := fundingRateView st;
     overlay_isShowing := isShowing st;
     overlay_title :=
       match lookup overlayTitles
                 (FundingRateResolution_value (fundingRateView st)) with
       | Some l => l
       | None => None
       end;
     output_value := rate;
     output_isNegative := num_lt (ToNumber rate) (of_Z 0) |}.

End Render.

(** Modelled from the spec: [TimeSeriesChart] of
    [@/components/visx/TimeSeriesChart] is not among the sources.  The spec
    has the registered callback "invoked whenever the chart's internal
    tooltip/zoom context changes"; the chart starts with its tooltip closed.
    A configuration pairs the chart's own context with the component. *)
Record Config := {
  chart_context : TooltipContext;
  component : State
}.

Definition closed_context : TooltipContext :=
  {| tooltipOpen := false; tooltipData := None |}.

Definition start : Config :=
  {| chart_context := closed_context; component := mount |}.

Inductive step : Config -> Config -> Prop :=
| step_context (cfg : Config) (c : TooltipContext) :
    step cfg {| chart_context := c;
                component := handle (component cfg) (onTooltipContext c) |}
| step_toggle (cfg : Config) (v : FundingRateResolution) :
    step cfg {| chart_context := chart_context cfg;
                component := handle (component cfg) (onValueChange v) |}.

Inductive reachable : Config -> Prop :=
| reachable_start : reachable start
| reachable_step (a b : Config) : reachable a -> step a b -> reachable b.

(** Sessions: each one mounts the component afresh ([useState] runs again
    with its initial value); the state an earlier session ended in is dropped
    with the component, and nothing in the component stores or reads it. *)
Definition session_end (evs : list Event) : State := run evs mount.

Definition session_start (earlier : list (list Event)) : State := mount.

(** Whether an entry of the toggle is the selected one. *)
Definition selected (v : View) (it : ToggleItem) : bool :=
  String.eqb (item_value it) (FundingRateResolution_value (toggle_value v)).

(** The tooltip flag the component last stored ([undefined] counts as
    closed). *)
Definition stored_open (st : State) : bool :=
  match tooltipContext st with
  | Some c => tooltipOpen c
  | None => false
  end.

(* ================================================================= *)
(** ** Vocabulary of the statements *)

Local Open Scope Q_scope.

(** [Number.EPSILON] *)
Definition EPSILON : Q := pow2 (-52).


(** [r] is a zero, or a normal number of magnitude below [2^bound]. *)
Definition zero_or_normal_below (bound : Z) (r : number) : bool :=
  match r with
  | S754_zero _ => true
  | S754_finite _ m e => (Z.pos (digits2_pos m) =? 53)%Z && (e + 53 <=? bound)%Z
  | _ => false
  end.



(** [z] is above the real number [q]: plus infinity, or finite and larger. *)
Definition exceeds (z : number) (q : Q) : Prop :=
  z = S754_infinity false \/ (is_finite z = true /\ q < val z).


Local Close Scope Q_scope.

(* ================================================================= *)
(** ** The rest of the component: tick labels, accessors, event runs *)

Local Open Scope string_scope.
Local Open Scope Z_scope.

(** [yAccessor: (datum) => datum?.fundingRate], the y value the series plots. *)
Definition yAccessor (d : option FundingChartDatum) : option number :=
  match d with
  | Some d => Some (fundingRate d)
  | None => None
  end.

(** The decimal digits of a natural number, ["0"] for zero. *)
Definition digits_of (n : N) : string :=
  NilZero.string_of_uint (N.to_uint n).

Fixpoint zeros (k : nat) : string :=
  match k with
  | O => EmptyString
  | S k => "0" ++ zeros k
  end.

(** Trailing zeros of a coefficient moved into the exponent. *)
Fixpoint strip_zeros (fuel : nat) (c : positive) (e : Z) : positive * Z :=
  match fuel with
  | O => (c, e)
  | S fuel =>
      if Z.pos c mod 10 =? 0
      then strip_zeros fuel (Z.to_pos (Z.pos c / 10)) (e + 1)
      else (c, e)
  end.

(** [Number::toString] of the positive number [m * 2^e] when it is at least
    [10^21]: the digits, a point after the first one, and the exponent. *)
Definition ToString_large (m : positive) (e : Z) : string :=
  let '(c, x) := toDecimal m e in
  let '(c, x) := strip_zeros (Pos.size_nat c) c x in
  let ds := digits_of (N.pos c) in
  let k := String.length ds in
  let n := Z.of_nat k + x in
  let mantissa :=
    if (k =? 1)%nat then ds
    else substring 0 1 ds ++ "." ++ substring 1 (k - 1) ds in
  mantissa ++ "e+" ++ digits_of (Z.to_N (n - 1)).

(** The digits of [n] with a point before the last [f] of them, padded
    with zeros on the left up to [f + 1] digits. *)
Definition fixed_digits (sign : string) (n : N) (f : Z) : string :=
  let m := digits_of n in
  if f =? 0 then sign ++ m
  else
    let fd := Z.to_nat f in
    let m := if (String.length m <=? fd)%nat
             then zeros (fd + 1 - String.length m) ++ m else m in
    let k := String.length m in
    sign ++ substring 0 (k - fd) m ++ "." ++ substring (k - fd) fd m.

(** [x.toFixed(f)] for an integer [f]; [None] is the [RangeError] thrown
    when [f] is not in 0..100.  The integer printed is the one nearest to
    [|x| * 10^f], the larger one of two. *)
Definition toFixed (x : number) (f : Z) : option string :=
  if (f <? 0) || (100 <? f) then None
  else
    Some match x with
         | S754_nan => "NaN"
         | S754_infinity s => if s then "-Infinity" else "Infinity"
         | S754_zero _ => fixed_digits EmptyString 0 f
         | S754_finite s m e =>
             let a := (inject_Z (Z.pos m) * pow2 e)%Q in
             let sign := if s then "-" else EmptyString in
             if Qle_bool (pow10 21) a then sign ++ ToString_large m e
             else fixed_digits sign
                    (Z.to_N (Qfloor (a * pow10 f + (1 # 2))%Q)) f
         end.

Section TickFormat.

(** [SMALL_PERCENT_DECIMALS] of [@/constants/numbers], an integer constant
    that is not among the sources. *)
Variable SMALL_PERCENT_DECIMALS : Z.

(** [tickFormatY]: the projected value times 100, printed with a fixed
    number of decimals and a percent sign. *)
Definition tickFormatY (view : FundingRateResolution) (value : option number)
  : option string :=
  match toFixed (num_mul (rate_at (getAllFundingRates value) view) (of_Z 100))
                SMALL_PERCENT_DECIMALS with
  | Some s => Some (s ++ "%")
  | None => None
  end.

End TickFormat.

(** The last value a run of events selects, and the last context it
    stores, if any. *)
Fixpoint last_value_change (evs : list Event) : option FundingRateResolution :=
  match evs with
  | [] => None
  | ev :: rest =>
      match last_value_change rest, ev with
      | Some v, _ => Some v
      | None, onValueChange v => Some v
      | None, onTooltipContext _ => None
      end
  end.

Fixpoint last_context (evs : list Event) : option TooltipContext :=
  match evs with
  | [] => None
  | ev :: rest =>
      match last_context rest, ev with
      | Some c, _ => Some c
      | None, onTooltipContext c => Some c
      | None, onValueChange _ => None
      end
  end.

(** The key the toggle and the overlay title ask the localization for. *)
Definition toggle_key (v : FundingRateResolution) : STRING_KEY :=
  match v with
  | OneHour => RATE_1H
  | EightHour => RATE_8H
  | Annualized => ANNUALIZED
  end.

Definition title_key (v : FundingRateResolution) : STRING_KEY :=
  match v with
  | OneHour => CURRENT_RATE_1H
  | EightHour => CURRENT_RATE_8H
  | Annualized => CURRENT_ANNUALIZED_RATE
  end.

(** Unary minus on numbers. *)
Definition num_neg (x : number) : number := SFopp x.

(* ================================================================= *)
(** ** The constants of [src/constants/markets.ts] *)

Module Markets.

(** [MarketFilters], in declaration order, and the strings the members
    evaluate to. *)
Inductive MarketFilters := ALL | LAYER_1 | DEFI.

Definition MarketFilters_value (f : MarketFilters) : string :=
  match f with
  | ALL => "all"
  | LAYER_1 => "Layer 1"
  | DEFI => "Defi"
  end.

(** The members of [STRING_KEYS] the labels name. *)
Inductive FILTER_STRING_KEY := KEY_ALL | KEY_LAYER_1 | KEY_DEFI.

Definition MARKET_FILTER_LABELS : object FILTER_STRING_KEY :=
  [ (MarketFilters_value ALL, KEY_ALL);
    (MarketFilters_value LAYER_1, KEY_LAYER_1);
    (MarketFilters_value DEFI, KEY_DEFI) ].

Definition DEFAULT_MARKETID : string := "ETH-USD".

End Markets.

(** The natural number a string of digits reads as. *)
Definition read_digits (s : string) : option N :=
  option_map N.of_uint (NilZero.uint_of_string s).

(** The sign [toFixed] prints. *)
Definition minus_sign (x : number) : string :=
  match x with
  | S754_finite true _ _ => "-"
  | _ => EmptyString
  end.

(* ================================================================= *)
(** ** Facts on numbers, rounding and decimal digits *)

Module NumberFacts.

Local Open Scope Q_scope.

Lemma pow2_pos k : 0 < pow2 k.
Proof. apply Qpower_0_lt. reflexivity. Qed.

Lemma pow2_add a b : pow2 (a + b) == pow2 a * pow2 b.
Proof. apply Qpower_plus. discriminate. Qed.

Lemma pow2_le a b : (a <= b)%Z -> pow2 a <= pow2 b.
Proof. intros H. apply Qpower_le_compat_l; [exact H | discriminate]. Qed.

Lemma pow2_lt a b : (a < b)%Z -> pow2 a < pow2 b.
Proof. intros H. apply Qpower_lt_compat_l; [exact H | reflexivity]. Qed.

Lemma pow2_Z k : (0 <= k)%Z -> pow2 k == inject_Z (2 ^ k).
Proof. intros H. unfold pow2. rewrite Zpower_Qpower by exact H. reflexivity. Qed.

Lemma pow2_succ k : pow2 (k + 1) == 2 * pow2 k.
Proof. rewrite pow2_add. change (pow2 1) with 2. ring. Qed.

(** Bracketing of a positive integer by powers of two, in [Q]. *)
Lemma log2_bracket (n : Z) :
  (0 < n)%Z -> pow2 (Z.log2 n) <= inject_Z n /\ inject_Z n < pow2 (Z.log2 n + 1).
Proof.
  intros Hn. destruct (Z.log2_spec n Hn) as [Hlo Hhi].
  pose proof (Z.log2_nonneg n) as Hnn.
  rewrite !pow2_Z by lia. rewrite <- Zle_Qle, <- Zlt_Qlt.
  replace (Z.log2 n + 1)%Z with (Z.succ (Z.log2 n)) by lia. split; assumption.
Qed.

Lemma Q_as_quotient (q : Q) : q * inject_Z (Z.pos (Qden q)) == inject_Z (Qnum q).
Proof.
  destruct q as [n d]. unfold Qeq, Qmult, inject_Z. simpl. lia.
Qed.

Lemma Qnum_pos (q : Q) : 0 < q -> (0 < Qnum q)%Z.
Proof. destruct q as [n d]. unfold Qlt. simpl. lia. Qed.

Lemma flog2_spec (q : Q) :
  0 < q -> pow2 (flog2 q) <= q /\ q < pow2 (flog2 q + 1).
Proof.
  intros Hq. unfold flog2.
  set (a := Z.log2 (Qnum q)). set (b := Z.log2 (Z.pos (Qden q))).
  destruct (log2_bracket (Qnum q) (Qnum_pos q Hq)) as [Ha1 Ha2].
  destruct (log2_bracket (Z.pos (Qden q)) eq_refl) as [Hb1 Hb2].
  fold a in Ha1, Ha2. fold b in Hb1, Hb2.
  pose proof (Q_as_quotient q) as Hquo.
  set (N := inject_Z (Qnum q)) in *. set (D := inject_Z (Z.pos (Qden q))) in *.
  assert (HD : 0 < D) by (unfold D; rewrite <- (Zlt_Qlt 0); reflexivity).
  pose proof (pow2_pos b) as Hpb. pose proof (pow2_pos (a - b)) as Hpk.
  assert (Ea : pow2 a == pow2 (a - b) * pow2 b)
    by (rewrite <- pow2_add; replace (a - b + b)%Z with a by lia; reflexivity).
  assert (Ea1 : pow2 (a + 1) == pow2 (a - b + 1) * pow2 b).
  { rewrite <- pow2_add. replace (a - b + 1 + b)%Z with (a + 1)%Z by lia. reflexivity. }
  assert (Eb1 : pow2 (b + 1) == 2 * pow2 b) by apply pow2_succ.
  assert (Ek1 : pow2 (a - b + 1) == 2 * pow2 (a - b)) by apply pow2_succ.
  assert (Ek0 : pow2 (a - b) == 2 * pow2 (a - b - 1)).
  { rewrite <- pow2_succ. replace (a - b - 1 + 1)%Z with (a - b)%Z by lia. reflexivity. }
  (* q < 2^(k+1) and 2^(k-1) < q *)
  assert (Hup : q < pow2 (a - b + 1)).
  { apply Qnot_le_lt. intros Hc.
    assert (pow2 (a - b + 1) * pow2 b <= q * D).
    { apply Qle_trans with (q * pow2 b).
      - apply Qmult_le_compat_r; [exact Hc | apply Qlt_le_weak, Hpb].
      - rewrite !(Qmult_comm q). apply Qmult_le_compat_r; [exact Hb1 | apply Qlt_le_weak, Hq]. }
    rewrite Hquo, <- Ea1 in H. apply (Qlt_irrefl N). eapply Qlt_le_trans; eauto. }
  assert (Hlow : pow2 (a - b - 1) < q).
  { apply Qnot_le_lt. intros Hc.
    assert (q * D < pow2 (a - b - 1) * pow2 (b + 1)).
    { apply Qle_lt_trans with (pow2 (a - b - 1) * D).
      - apply Qmult_le_compat_r; [exact Hc | apply Qlt_le_weak, HD].
      - rewrite !(Qmult_comm (pow2 (a - b - 1))). apply Qmult_lt_compat_r; [apply pow2_pos | exact Hb2]. }
    rewrite Hquo, <- pow2_add in H. replace (a - b - 1 + (b + 1))%Z with a in H by lia.
    apply (Qlt_irrefl N). eapply Qlt_le_trans; eauto. }
  destruct (Qle_bool (pow2 (a - b)) q) eqn:Hb.
  - apply Qle_bool_iff in Hb. split; assumption.
  - assert (~ pow2 (a - b) <= q) by (rewrite <- Qle_bool_iff; congruence).
    replace (a - b - 1 + 1)%Z with (a - b)%Z by lia. split.
    + apply Qlt_le_weak, Hlow.
    + apply Qnot_le_lt. assumption.
Qed.

Lemma flog2_unique (q : Q) (l : Z) :
  pow2 l <= q -> q < pow2 (l + 1) -> flog2 q = l.
Proof.
  intros H1 H2.
  assert (Hq : 0 < q) by (eapply Qlt_le_trans; [apply (pow2_pos l) | exact H1]).
  destruct (flog2_spec q Hq) as [G1 G2].
  destruct (Z.lt_trichotomy (flog2 q) l) as [C | [C | C]]; [ | exact C | ].
  - exfalso. assert (pow2 (flog2 q + 1) <= pow2 l) by (apply pow2_le; lia).
    apply (Qlt_irrefl q). eapply Qlt_le_trans; [exact G2 |]. eapply Qle_trans; eauto.
  - exfalso. assert (pow2 (l + 1) <= pow2 (flog2 q)) by (apply pow2_le; lia).
    apply (Qlt_irrefl q). eapply Qlt_le_trans; [exact H2 |]. eapply Qle_trans; eauto.
Qed.

Lemma flog2_eq (q q' : Q) : 0 < q -> q == q' -> flog2 q = flog2 q'.
Proof.
  intros Hq E. destruct (flog2_spec q Hq) as [G1 G2]. symmetry.
  apply flog2_unique; rewrite <- E; assumption.
Qed.

Lemma flog2_scale (q : Q) (j : Z) : 0 < q -> flog2 (pow2 j * q) = (flog2 q + j)%Z.
Proof.
  intros Hq. destruct (flog2_spec q Hq) as [G1 G2]. pose proof (pow2_pos j) as Hj.
  apply flog2_unique.
  - rewrite pow2_add, Qmult_comm. apply Qmult_le_l; assumption.
  - replace (flog2 q + j + 1)%Z with (flog2 q + 1 + j)%Z by lia.
    rewrite pow2_add, (Qmult_comm (pow2 (flog2 q + 1))). apply Qmult_lt_l; assumption.
Qed.

Lemma flog2_mono (q q' : Q) : 0 < q -> q <= q' -> (flog2 q <= flog2 q')%Z.
Proof.
  intros Hq Hle. assert (Hq' : 0 < q') by (eapply Qlt_le_trans; eauto).
  destruct (flog2_spec q Hq) as [G1 _]. destruct (flog2_spec q' Hq') as [_ G2].
  assert (pow2 (flog2 q) < pow2 (flog2 q' + 1)).
  { eapply Qle_lt_trans; [exact G1 |]. eapply Qle_lt_trans; eauto. }
  apply Qpower_lt_compat_l_inv in H; [lia | reflexivity].
Qed.

(** *** Rounding to the nearest integer *)

Lemma rne_eq (t t' : Q) : t == t' -> rne t = rne t'.
Proof.
  intros E. unfold rne.
  assert (F : Qfloor t = Qfloor t') by (apply Qfloor_comp; exact E).
  rewrite <- F.
  assert (E2 : t - inject_Z (Qfloor t) == t' - inject_Z (Qfloor t))
    by (unfold Qminus; apply Qplus_comp; [exact E | reflexivity]).
  rewrite (Qcompare_comp _ _ E2 (1 # 2) (1 # 2) (Qeq_refl _)). reflexivity.
Qed.

Lemma rne_floor_or_succ (t : Q) : rne t = Qfloor t \/ rne t = (Qfloor t + 1)%Z.
Proof.
  unfold rne. destruct (Qcompare _ _); [destruct (Z.even _) | | ]; auto.
Qed.

Lemma rne_Z (z : Z) : rne (inject_Z z) = z.
Proof.
  unfold rne. rewrite Qfloor_Z.
  assert (E : inject_Z z - inject_Z z == 0) by ring.
  rewrite (Qcompare_comp _ _ E (1 # 2) (1 # 2) (Qeq_refl _)). reflexivity.
Qed.

Lemma rne_error (t : Q) : Qabs (inject_Z (rne t) - t) <= 1 # 2.
Proof.
  pose proof (Qfloor_le t) as Hlo. pose proof (Qlt_floor t) as Hhi.
  rewrite inject_Z_plus in Hhi. change (inject_Z 1) with 1 in Hhi.
  apply Qabs_Qle_condition. unfold rne.
  destruct (Qcompare (t - inject_Z (Qfloor t)) (1 # 2)) eqn:C.
  - apply Qeq_alt in C. destruct (Z.even _); [| rewrite inject_Z_plus; change (inject_Z 1) with 1]; lra.
  - apply Qlt_alt in C. lra.
  - apply Qgt_alt in C. rewrite inject_Z_plus; change (inject_Z 1) with 1. lra.
Qed.

Lemma rne_ge (t : Q) (a : Z) : inject_Z a <= t -> (a <= rne t)%Z.
Proof.
  intros H. apply Qfloor_resp_le in H. rewrite Qfloor_Z in H.
  destruct (rne_floor_or_succ t) as [E | E]; rewrite E; lia.
Qed.

Lemma rne_le (t : Q) (b : Z) : t <= inject_Z b -> (rne t <= b)%Z.
Proof.
  intros H. pose proof (Qfloor_resp_le _ _ H) as Hf. rewrite Qfloor_Z in Hf.
  destruct (Z.eq_dec (Qfloor t) b) as [E | NE].
  - unfold rne. rewrite E.
    assert (C : Qcompare (t - inject_Z b) (1 # 2) = Lt).
    { rewrite <- Qlt_alt. lra. }
    rewrite C. lia.
  - destruct (rne_floor_or_succ t) as [E | E]; rewrite E; lia.
Qed.

(** *** Packing and rounding *)

Lemma pack_sign (s : bool) (m e : Z) :
  pack s m e = (if s then SFopp (pack false m e) else pack false m e).
Proof.
  unfold pack. destruct (m =? 2 ^ 53)%Z.
  - simpl. destruct (e + 1 <=? 971)%Z, s; reflexivity.
  - destruct m; destruct s; try reflexivity; destruct (e <=? 971)%Z; reflexivity.
Qed.

Lemma round_pos_sign (s : bool) (q : Q) :
  round_pos s q = (if s then SFopp (round_pos false q) else round_pos false q).
Proof. unfold round_pos. apply pack_sign. Qed.

Lemma round_pos_eq (s : bool) (q q' : Q) :
  0 < q -> q == q' -> round_pos s q = round_pos s q'.
Proof.
  intros Hq E. unfold round_pos. rewrite <- (flog2_eq q q' Hq E).
  f_equal. apply rne_eq. unfold Qdiv. apply Qmult_comp; [exact E | reflexivity].
Qed.

(** The scaled argument the significand is rounded from. *)
Lemma scaled_range (q : Q) :
  0 < q -> (-1022 <= flog2 q)%Z ->
  let e := Z.max (flog2 q - 52) (-1074) in
  e = (flog2 q - 52)%Z /\ pow2 52 <= q / pow2 e /\ q / pow2 e < pow2 53.
Proof.
  intros Hq HL e. assert (Ee : e = (flog2 q - 52)%Z) by (unfold e; lia).
  split; [exact Ee |]. rewrite Ee.
  destruct (flog2_spec q Hq) as [G1 G2].
  pose proof (pow2_pos (flog2 q - 52)) as Hp.
  assert (E1 : pow2 (flog2 q) == pow2 52 * pow2 (flog2 q - 52)).
  { rewrite <- pow2_add. replace (52 + (flog2 q - 52))%Z with (flog2 q) by lia. reflexivity. }
  assert (E2 : pow2 (flog2 q + 1) == pow2 53 * pow2 (flog2 q - 52)).
  { rewrite <- pow2_add. replace (53 + (flog2 q - 52))%Z with (flog2 q + 1)%Z by lia. reflexivity. }
  split.
  - apply Qle_shift_div_l; [exact Hp |]. rewrite <- E1. exact G1.
  - apply Qlt_shift_div_r; [exact Hp |]. rewrite <- E2. exact G2.
Qed.

Lemma digits2_size (m : positive) : digits2_pos m = Pos.size m.
Proof. induction m; simpl; congruence. Qed.

Lemma digits2_bracket (m : positive) :
  (2 ^ (Z.pos (digits2_pos m) - 1) <= Z.pos m < 2 ^ Z.pos (digits2_pos m))%Z.
Proof.
  rewrite digits2_size. pose proof (Pos.size_gt m) as Hgt. pose proof (Pos.size_le m) as Hle.
  assert (E : (2 ^ Z.pos (Pos.size m) = Z.pos (2 ^ Pos.size m))%Z) by (rewrite Pos2Z.inj_pow; reflexivity).
  assert (E2 : (2 ^ Z.pos (Pos.size m) = 2 * 2 ^ (Z.pos (Pos.size m) - 1))%Z).
  { rewrite <- Z.pow_succ_r by lia. f_equal. lia. }
  split; [| rewrite E; lia].
  assert (Z.pos (2 ^ Pos.size m) <= Z.pos m~0)%Z by lia. lia.
Qed.

Lemma pack_shift (s : bool) (m0 e0 : Z) (m : positive) (e j : Z) :
  pack s m0 e0 = S754_finite s m e -> (0 <= j)%Z ->
  pack s m0 (e0 + j)
  = if (e + j <=? 971)%Z then S754_finite s m (e + j) else S754_infinity s.
Proof.
  unfold pack. intros H Hj.
  destruct (m0 =? 2 ^ 53)%Z.
  - cbv iota beta in *. destruct (e0 + 1 <=? 971)%Z eqn:C; [| discriminate].
    injection H as <- <-.
    replace (e0 + j + 1)%Z with (e0 + 1 + j)%Z by lia. reflexivity.
  - destruct m0; try discriminate. destruct (e0 <=? 971)%Z eqn:C; [| discriminate].
    injection H as <- <-. reflexivity.
Qed.

(** A significand in [2^52, 2^53] packs to a normal number of the same value. *)
Lemma pack_normal (s : bool) (m0 e0 : Z) :
  (2 ^ 52 <= m0 <= 2 ^ 53)%Z -> (e0 + 1 <= 971)%Z ->
  exists m e, pack s m0 e0 = S754_finite s m e
    /\ inject_Z (Z.pos m) * pow2 e == inject_Z m0 * pow2 e0
    /\ (e0 <= e <= e0 + 1)%Z /\ (2 ^ 52 <= Z.pos m < 2 ^ 53)%Z.
Proof.
  intros Hm He. unfold pack. destruct (m0 =? 2 ^ 53)%Z eqn:C.
  - apply Z.eqb_eq in C. subst m0. exists (2 ^ 52)%positive, (e0 + 1)%Z.
    replace (e0 + 1 <=? 971)%Z with true by (symmetry; apply Z.leb_le; lia).
    cbv iota beta. repeat split; try lia. rewrite pow2_succ.
    assert (E : inject_Z (2 ^ 53) == inject_Z (Z.pos (2 ^ 52)) * 2) by reflexivity.
    rewrite E. ring.
  - apply Z.eqb_neq in C. destruct m0 as [| p | p]; try lia.
    exists p, e0. replace (e0 <=? 971)%Z with true by (symmetry; apply Z.leb_le; lia).
    repeat split; lia.
Qed.

Lemma round_pos_unfold (s : bool) (q : Q) :
  0 < q -> (-1022 <= flog2 q)%Z ->
  round_pos s q = pack s (rne (q / pow2 (flog2 q - 52))) (flog2 q - 52)
  /\ (2 ^ 52 <= rne (q / pow2 (flog2 q - 52)) <= 2 ^ 53)%Z.
Proof.
  intros Hq HL. destruct (scaled_range q Hq HL) as (Ee & Hlo & Hhi).
  unfold round_pos. rewrite Ee in *. split; [reflexivity |].
  rewrite (pow2_Z 52) in Hlo by lia. rewrite (pow2_Z 53) in Hhi by lia. split.
  - apply rne_ge. exact Hlo.
  - apply rne_le. apply Qlt_le_weak. exact Hhi.
Qed.

(** Multiplying by a power of two moves the exponent and nothing else. *)
Lemma round_pos_scale (s : bool) (q : Q) (j : Z) (m : positive) (e : Z) :
  0 < q -> (-1022 <= flog2 q)%Z -> (0 <= j)%Z ->
  round_pos s q = S754_finite s m e ->
  round_pos s (pow2 j * q)
  = if (e + j <=? 971)%Z then S754_finite s m (e + j) else S754_infinity s.
Proof.
  intros Hq HL Hj H.
  assert (Hq' : 0 < pow2 j * q).
  { apply Qmult_lt_0_compat; [apply pow2_pos | exact Hq]. }
  destruct (round_pos_unfold s q Hq HL) as [U _].
  assert (HL' : (-1022 <= flog2 (pow2 j * q))%Z) by (rewrite flog2_scale by exact Hq; lia).
  destruct (round_pos_unfold s _ Hq' HL') as [U' _].
  rewrite U'. rewrite flog2_scale by exact Hq. rewrite U in H.
  replace (flog2 q + j - 52)%Z with (flog2 q - 52 + j)%Z by lia.
  rewrite (rne_eq _ (q / pow2 (flog2 q - 52))).
  - apply pack_shift; assumption.
  - rewrite pow2_add. pose proof (pow2_pos j). pose proof (pow2_pos (flog2 q - 52)).
    field. split; apply Qnot_eq_sym, Qlt_not_eq; assumption.
Qed.

(** The relative error of rounding in the normal range is at most [2^-53]. *)
Lemma round_pos_error (s : bool) (q : Q) :
  0 < q -> (-1022 <= flog2 q <= 1022)%Z ->
  exists m e, round_pos s q = S754_finite s m e
    /\ Qabs (inject_Z (Z.pos m) * pow2 e - q) <= pow2 (-53) * q
    /\ (flog2 q - 52 <= e <= flog2 q - 51)%Z /\ (2 ^ 52 <= Z.pos m < 2 ^ 53)%Z.
Proof.
  intros Hq [HL HU]. destruct (round_pos_unfold s q Hq HL) as [U R].
  destruct (pack_normal s _ (flog2 q - 52) R ltac:(lia)) as (m & e & P & V & He & Hm).
  exists m, e. rewrite U, P. repeat split; try lia.
  set (e0 := (flog2 q - 52)%Z) in *. set (t := q / pow2 e0) in *.
  pose proof (pow2_pos e0) as Hp.
  assert (Eq : q == t * pow2 e0).
  { unfold t. field. apply Qnot_eq_sym, Qlt_not_eq. exact Hp. }
  assert (E1 : inject_Z (Z.pos m) * pow2 e - q == (inject_Z (rne t) - t) * pow2 e0).
  { rewrite V. rewrite Eq at 1. ring. }
  rewrite E1, Qabs_Qmult, (Qabs_pos (pow2 e0)) by (apply Qlt_le_weak; exact Hp).
  destruct (flog2_spec q Hq) as [G1 _].
  assert (E2 : (1 # 2) * pow2 e0 == pow2 (-53) * pow2 (flog2 q)).
  { unfold e0. replace (flog2 q - 52)%Z with (flog2 q + -52)%Z by lia. rewrite pow2_add.
    assert (E3 : (1 # 2) * pow2 (-52) == pow2 (-53)) by reflexivity.
    rewrite <- E3. ring. }
  apply Qle_trans with ((1 # 2) * pow2 e0).
  - apply Qmult_le_compat_r; [apply rne_error | apply Qlt_le_weak; exact Hp].
  - rewrite E2. apply Qmult_le_l; [apply pow2_pos | exact G1].
Qed.

(** *** Numbers that are their own rounding *)

Lemma valid_finite (s : bool) (m : positive) (e : Z) :
  valid (S754_finite s m e) = true ->
  (Z.max (Z.pos (digits2_pos m) + e - 53) (-1074) = e /\ e <= 971)%Z.
Proof.
  unfold valid, valid_binary, bounded, canonical_mantissa, fexp, SpecFloat.emin, prec, emax.
  intros H. apply andb_prop in H. destruct H as [H1 H2].
  apply Z.eqb_eq in H1. apply Z.leb_le in H2. lia.
Qed.

Lemma val_pos (m : positive) (e : Z) : 0 < inject_Z (Z.pos m) * pow2 e.
Proof.
  apply Qmult_lt_0_compat; [| apply pow2_pos]. rewrite <- (Zlt_Qlt 0). reflexivity.
Qed.

Lemma flog2_val (m : positive) (e : Z) :
  flog2 (inject_Z (Z.pos m) * pow2 e) = (Z.pos (digits2_pos m) - 1 + e)%Z.
Proof.
  destruct (digits2_bracket m) as [Hlo Hhi]. pose proof (pow2_pos e) as Hp.
  set (d := Z.pos (digits2_pos m)) in *. assert (Hd : (0 < d)%Z) by (unfold d; lia).
  apply flog2_unique.
  - rewrite pow2_add, (pow2_Z (d - 1)) by lia.
    apply Qmult_le_compat_r; [| apply Qlt_le_weak; exact Hp]. rewrite <- Zle_Qle. exact Hlo.
  - replace (d - 1 + e + 1)%Z with (d + e)%Z by lia. rewrite pow2_add, (pow2_Z d) by lia.
    apply Qmult_lt_compat_r; [exact Hp |]. rewrite <- Zlt_Qlt. exact Hhi.
Qed.

Lemma round_pos_val (s : bool) (m : positive) (e : Z) :
  valid (S754_finite s m e) = true ->
  round_pos s (inject_Z (Z.pos m) * pow2 e) = S754_finite s m e.
Proof.
  intros Hv. apply valid_finite in Hv. destruct Hv as [Hc He].
  destruct (digits2_bracket m) as [_ Hhi].
  unfold round_pos. rewrite flog2_val.
  replace (Z.max (Z.pos (digits2_pos m) - 1 + e - 52) (-1074)) with e by lia.
  rewrite (rne_eq _ (inject_Z (Z.pos m))).
  - rewrite rne_Z. unfold pack.
    assert (Hlt : (Z.pos m < 2 ^ 53)%Z).
    { eapply Z.lt_le_trans; [exact Hhi |]. apply Z.pow_le_mono_r; lia. }
    replace (Z.pos m =? 2 ^ 53)%Z with false by (symmetry; apply Z.eqb_neq; lia).
    replace (e <=? 971)%Z with true by (symmetry; apply Z.leb_le; lia). reflexivity.
  - pose proof (pow2_pos e). field. apply Qnot_eq_sym, Qlt_not_eq. assumption.
Qed.

Lemma same_eq (a b : number) : same a b = true -> a = b.
Proof.
  destruct a, b; simpl; try discriminate; intros H; try reflexivity.
  - apply Bool.eqb_prop in H. congruence.
  - apply Bool.eqb_prop in H. congruence.
  - apply andb_prop in H. destruct H as [H He]. apply andb_prop in H. destruct H as [Hs Hm].
    apply Bool.eqb_prop in Hs. apply Pos.eqb_eq in Hm. apply Z.eqb_eq in He. congruence.
Qed.

(** *** The decimal digits read back as the number *)

Lemma candidate_sound (x : number) (v : Q) (n k : Z) (d : positive * Z) :
  0 < v -> candidate x v n k = Some d -> round_pos false (dec_val d) = x.
Proof.
  intros Hv. unfold candidate.
  set (scale := pow10 (n - k)). set (lo := Qfloor (v / scale)).
  assert (Hs : 0 < scale) by (apply Qpower_0_lt; reflexivity).
  assert (Hlo : (0 <= lo)%Z).
  { change 0%Z with (Qfloor 0). apply Qfloor_resp_le.
    apply Qle_shift_div_l; [exact Hs |]. rewrite Qmult_0_l. apply Qlt_le_weak. exact Hv. }
  assert (Tlo : same (round_pos false (inject_Z lo * scale)) x = true -> (0 < lo)%Z ->
                round_pos false (dec_val (Z.to_pos lo, (n - k)%Z)) = x).
  { intros H P. unfold dec_val. cbn [fst snd]. rewrite Z2Pos.id by exact P.
    apply same_eq. exact H. }
  assert (Thi : same (round_pos false (inject_Z (lo + 1) * scale)) x = true ->
                round_pos false (dec_val (Z.to_pos (lo + 1), (n - k)%Z)) = x).
  { intros H. unfold dec_val. cbn [fst snd]. rewrite Z2Pos.id by lia.
    apply same_eq. exact H. }
  destruct (0 <? lo)%Z eqn:P; [apply Z.ltb_lt in P |]; simpl andb;
    destruct (same (round_pos false (inject_Z lo * scale)) x) eqn:A;
    destruct (same (round_pos false (inject_Z (lo + 1) * scale)) x) eqn:B;
    try discriminate;
    repeat match goal with
    | |- context [Qcompare ?a ?b] => destruct (Qcompare a b)
    | |- context [Z.even ?a] => destruct (Z.even a)
    end;
    intros H; injection H as <-; auto.
Qed.

Lemma shortest_sound (fuel : nat) (x : number) (v : Q) (n k : Z) (d : positive * Z) :
  0 < v -> shortest fuel x v n k = Some d -> round_pos false (dec_val d) = x.
Proof.
  intros Hv. revert k. induction fuel as [| f IH]; intros k; simpl; [discriminate |].
  destruct (candidate x v n k) eqn:C.
  - intros H. injection H as <-. eapply candidate_sound; eauto.
  - apply IH.
Qed.

Lemma exact_decimal_val (m : positive) (e : Z) :
  dec_val (exact_decimal m e) == inject_Z (Z.pos m) * pow2 e.
Proof.
  unfold exact_decimal, dec_val. destruct (0 <=? e)%Z eqn:C.
  - apply Z.leb_le in C. cbn [fst snd].
    assert (0 < 2 ^ e)%Z by (apply Z.pow_pos_nonneg; lia).
    rewrite Z2Pos.id by (apply Z.mul_pos_pos; lia). rewrite inject_Z_mult, pow2_Z by lia.
    change (pow10 0) with 1. ring.
  - apply Z.leb_gt in C. cbn [fst snd].
    assert (0 < 5 ^ (- e))%Z by (apply Z.pow_pos_nonneg; lia).
    rewrite Z2Pos.id by (apply Z.mul_pos_pos; lia). rewrite inject_Z_mult.
    rewrite (Zpower_Qpower 5 (- e)) by lia.
    unfold pow10, pow2. change (inject_Z 5) with 5. change 10 with (2 * 5).
    rewrite Qmult_power. rewrite (Qpower_opp 5 e).
    assert (~ 5 ^ e == 0) by (apply Qpower_not_0; discriminate).
    field. assumption.
Qed.

Theorem toDecimal_reads_back (m : positive) (e : Z) :
  valid (S754_finite false m e) = true ->
  round_pos false (dec_val (toDecimal m e)) = S754_finite false m e.
Proof.
  intros Hv. unfold toDecimal.
  destruct (shortest _ _ _ _ _) eqn:S.
  - eapply shortest_sound; [| exact S]. simpl. apply val_pos.
  - rewrite (round_pos_eq _ _ (inject_Z (Z.pos m) * pow2 e)).
    + apply round_pos_val. exact Hv.
    + rewrite exact_decimal_val. apply val_pos.
    + apply exact_decimal_val.
Qed.

Lemma dec_val_pos (d : positive * Z) : 0 < dec_val d.
Proof.
  unfold dec_val. apply Qmult_lt_0_compat.
  - rewrite <- (Zlt_Qlt 0). reflexivity.
  - apply Qpower_0_lt. reflexivity.
Qed.

(** *** Multiplying by eight *)

Local Open Scope Z_scope.



(** *** The rounding agrees with the Standard Library's division

    [round_pos] is written over [Q]; on quotients of two numbers it gives
    what [SFdiv], the library's correctly rounded division, gives. *)

Example round_pos_one_third :
  round_pos false (1 # 3) = SFdiv prec emax (of_Z 1) (of_Z 3).
Proof. vm_compute. reflexivity. Qed.

Example round_pos_hundred_thousandth :
  round_pos false (1 # 100000) = SFdiv prec emax (of_Z 1) (of_Z 100000).
Proof. vm_compute. reflexivity. Qed.

Example round_pos_subnormal :
  round_pos true (7 * pow2 (-1074) / 3)
  = SFdiv prec emax (S754_finite true 7 (-1074)) (of_Z 3).
Proof. vm_compute. reflexivity. Qed.

(** Ties go to the even significand, as in the library's conversion of
    integers. *)
Example round_pos_tie_down :
  round_pos false (inject_Z (2 ^ 53 + 1)) = of_Z (2 ^ 53 + 1)
  /\ of_Z (2 ^ 53 + 1) = of_Z (2 ^ 53).
Proof. vm_compute. split; reflexivity. Qed.

Example round_pos_tie_up :
  round_pos false (inject_Z (2 ^ 53 + 3)) = of_Z (2 ^ 53 + 3)
  /\ of_Z (2 ^ 53 + 3) = of_Z (2 ^ 53 + 4).
Proof. vm_compute. split; reflexivity. Qed.

(** *** Digits as [String] gives them *)

Example toDecimal_tenth : toDecimal 7205759403792794 (-56) = (1%positive, -1).
Proof. vm_compute. reflexivity. Qed.

Example toDecimal_least : toDecimal 1 (-1074) = (5%positive, -324).
Proof. vm_compute. reflexivity. Qed.

Example toDecimal_greatest :
  toDecimal 9007199254740991 971 = (17976931348623157%positive, 292).
Proof. vm_compute. reflexivity. Qed.

End NumberFacts.

Import NumberFacts.

(* ================================================================= *)
(** ** Facts on the rate projector *)

Module ProjectorFacts.

Local Open Scope Q_scope.

Lemma pack_finite_inv (s : bool) (m0 e0 : Z) (m : positive) (e : Z) :
  pack s m0 e0 = S754_finite s m e ->
  inject_Z (Z.pos m) * pow2 e == inject_Z m0 * pow2 e0
  /\ (e0 <= e <= e0 + 1)%Z /\ (e <= 971)%Z
  /\ (Z.pos m = m0 \/ (m0 = 2 ^ 53 /\ Z.pos m = 2 ^ 52))%Z.
Proof.
  unfold pack. destruct (m0 =? 2 ^ 53)%Z eqn:C.
  - apply Z.eqb_eq in C. subst m0. cbv iota beta.
    destruct (e0 + 1 <=? 971)%Z eqn:D; [| discriminate]. apply Z.leb_le in D.
    intros H. injection H as <- <-. repeat split; try lia.
    rewrite pow2_succ.
    assert (E : inject_Z (2 ^ 53) == inject_Z 4503599627370496 * 2) by reflexivity.
    rewrite E. ring.
  - destruct m0 as [| p | p]; try discriminate.
    destruct (e0 <=? 971)%Z eqn:D; [| discriminate]. apply Z.leb_le in D.
    intros H. injection H as <- <-. repeat split; lia.
Qed.

(** A normal result comes from an argument in the normal range, the least
    normal number apart. *)
Lemma normal_result_range (s : bool) (q : Q) (m : positive) (e : Z) :
  0 < q -> round_pos s q = S754_finite s m e -> Z.pos (digits2_pos m) = 53%Z ->
  (-1022 <= flog2 q)%Z \/ (m = (2 ^ 52)%positive /\ e = (-1074)%Z).
Proof.
  intros Hq H Hd. destruct (Z_le_gt_dec (-1022) (flog2 q)) as [L | L]; [left; exact L | right].
  unfold round_pos in H. replace (Z.max (flog2 q - 52) (-1074)) with (-1074)%Z in H by lia.
  destruct (flog2_spec q Hq) as [_ G2].
  assert (Ht : q / pow2 (-1074) <= inject_Z (2 ^ 52)).
  { apply Qle_shift_div_r; [apply pow2_pos |]. rewrite <- (pow2_Z 52) by lia.
    rewrite <- pow2_add. apply Qlt_le_weak. eapply Qlt_le_trans; [exact G2 |].
    apply pow2_le. lia. }
  apply rne_le in Ht.
  destruct (pack_finite_inv _ _ _ _ _ H) as (_ & He & _ & Hm).
  destruct (digits2_bracket m) as [Hlo _]. rewrite Hd in Hlo.
  change (2 ^ (53 - 1))%Z with (2 ^ 52)%Z in Hlo.
  destruct Hm as [Hm | [Hm _]]; [| lia].
  assert (E : Z.pos m = (2 ^ 52)%Z) by lia.
  split.
  - apply Pos2Z.inj. rewrite E. reflexivity.
  - unfold pack in H. rewrite <- Hm, E in H. simpl in H. injection H as _ <-. reflexivity.
Qed.

Lemma round_pos_finite_inv (s : bool) (q : Q) (m : positive) (e : Z) :
  0 < q -> (-1022 <= flog2 q)%Z -> round_pos s q = S754_finite s m e ->
  Qabs (inject_Z (Z.pos m) * pow2 e - q) <= pow2 (-53) * q
  /\ (flog2 q - 52 <= e <= flog2 q - 51)%Z.
Proof.
  intros Hq HL H. destruct (round_pos_unfold s q Hq HL) as [U R].
  rewrite U in H. destruct (pack_finite_inv _ _ _ _ _ H) as (_ & He & He2 & _).
  destruct (Z_le_gt_dec (flog2 q) 1022) as [C | C].
  - destruct (round_pos_error s q Hq (conj HL C)) as (m' & e' & P & B & _).
    rewrite U, H in P. injection P as <- <-. split; [exact B | lia].
  - (* the top binade: no carry, or the result would be infinite *)
    assert (E : e = (flog2 q - 52)%Z) by lia. split; [| lia].
    destruct (pack_finite_inv _ _ _ _ _ H) as (V & _).
    set (e0 := (flog2 q - 52)%Z) in *. set (t := q / pow2 e0) in *.
    pose proof (pow2_pos e0) as Hp.
    assert (Eq : q == t * pow2 e0).
    { unfold t. field. apply Qnot_eq_sym, Qlt_not_eq. exact Hp. }
    assert (E1 : inject_Z (Z.pos m) * pow2 e - q == (inject_Z (rne t) - t) * pow2 e0).
    { rewrite V. rewrite Eq at 1. ring. }
    rewrite E1, Qabs_Qmult, (Qabs_pos (pow2 e0)) by (apply Qlt_le_weak; exact Hp).
    destruct (flog2_spec q Hq) as [G1 _].
    assert (E2 : (1 # 2) * pow2 e0 == pow2 (-53) * pow2 (flog2 q)).
    { unfold e0. replace (flog2 q - 52)%Z with (flog2 q + -52)%Z by lia. rewrite pow2_add.
      assert (E3 : (1 # 2) * pow2 (-52) == pow2 (-53)) by reflexivity.
      rewrite <- E3. ring. }
    apply Qle_trans with ((1 # 2) * pow2 e0).
    + apply Qmult_le_compat_r; [apply rne_error | apply Qlt_le_weak; exact Hp].
    + rewrite E2. apply Qmult_le_l; [apply pow2_pos | exact G1].
Qed.

Lemma flog2_lt (q : Q) (b : Z) : 0 < q -> q < pow2 b -> (flog2 q < b)%Z.
Proof.
  intros Hq H. destruct (flog2_spec q Hq) as [G1 _].
  assert (pow2 (flog2 q) < pow2 b) by (eapply Qle_lt_trans; eauto).
  apply Qpower_lt_compat_l_inv in H0; [exact H0 | reflexivity].
Qed.

Lemma new_BigNumber_8 : new_BigNumber (of_Z 8) = BN_finite false 8 0.
Proof. vm_compute. reflexivity. Qed.

Lemma new_BigNumber_8760 :
  new_BigNumber (num_mul (of_Z 24) (of_Z 365)) = BN_finite false 876 1.
Proof. vm_compute. reflexivity. Qed.

Lemma reads_back_signed (s : bool) (m : positive) (e : Z) :
  valid (S754_finite s m e) = true ->
  round_pos s (dec_val (toDecimal m e)) = S754_finite s m e.
Proof.
  intros Hv. rewrite round_pos_sign, (toDecimal_reads_back m e Hv).
  destruct s; reflexivity.
Qed.

(** What the two products evaluate to, before any case analysis. *)
Lemma eight_hour_unfold (s : bool) (m : positive) (e : Z) :
  rate_EightHour (getAllFundingRates (Some (S754_finite s m e)))
  = round_pos s (pow2 3 * dec_val (toDecimal m e)).
Proof.
  unfold getAllFundingRates. cbn [rate_EightHour]. unfold MustBigNumber.
  cbn [num_or truthy new_BigNumber]. unfold times. rewrite new_BigNumber_8.
  destruct (toDecimal m e) as [c k]. cbn [toNumber]. rewrite xorb_false_r.
  apply round_pos_eq; [apply dec_val_pos |].
  unfold dec_val. cbn [fst snd]. rewrite Pos2Z.inj_mul, inject_Z_mult, Z.add_0_r.
  change (pow2 3) with 8. change (inject_Z 8) with 8. ring.
Qed.

Lemma annualized_unfold (s : bool) (m : positive) (e : Z) :
  rate_Annualized (getAllFundingRates (Some (S754_finite s m e)))
  = round_pos s (8760 * dec_val (toDecimal m e)).
Proof.
  unfold getAllFundingRates. cbn [rate_Annualized]. unfold MustBigNumber.
  cbn [num_or truthy new_BigNumber]. unfold times. rewrite new_BigNumber_8760.
  destruct (toDecimal m e) as [c k]. cbn [toNumber]. rewrite xorb_false_r.
  apply round_pos_eq; [apply dec_val_pos |].
  unfold dec_val. cbn [fst snd]. rewrite Pos2Z.inj_mul, inject_Z_mult.
  unfold pow10. rewrite Qpower_plus by discriminate.
  change (10 ^ 1) with 10. change (inject_Z 876) with 876. ring.
Qed.

Lemma eight_hour_normal (s : bool) (m : positive) (e : Z) :
  valid (S754_finite s m e) = true -> Z.pos (digits2_pos m) = 53%Z ->
  rate_EightHour (getAllFundingRates (Some (S754_finite s m e)))
  = if (e + 3 <=? 971)%Z then S754_finite s m (e + 3) else S754_infinity s.
Proof.
  intros Hv Hd.
  destruct (Pos.eq_dec m (2 ^ 52)) as [Em | Nm]; [destruct (Z.eq_dec e (-1074)) as [Ee | Ne] |].
  - subst. destruct s; vm_compute; reflexivity.
  - rewrite eight_hour_unfold. pose proof (reads_back_signed s m e Hv) as RT.
    destruct (normal_result_range s _ m e (dec_val_pos _) RT Hd) as [L | [_ C]]; [| contradiction].
    apply round_pos_scale; auto using dec_val_pos; lia.
  - rewrite eight_hour_unfold. pose proof (reads_back_signed s m e Hv) as RT.
    destruct (normal_result_range s _ m e (dec_val_pos _) RT Hd) as [L | [C _]]; [| contradiction].
    apply round_pos_scale; auto using dec_val_pos; lia.
Qed.

Lemma eight_hour_normal_finite (s : bool) (m : positive) (e : Z) :
  valid (S754_finite s m e) = true -> Z.pos (digits2_pos m) = 53%Z ->
  (e <= 968)%Z ->
  rate_EightHour (getAllFundingRates (Some (S754_finite s m e)))
  = S754_finite s m (e + 3).
Proof.
  intros Hv Hd He. rewrite (eight_hour_normal s m e Hv Hd).
  replace (e + 3 <=? 971)%Z with true by (symmetry; apply Z.leb_le; lia).
  reflexivity.
Qed.

Lemma annualized_normal (s : bool) (m : positive) (e : Z) :
  valid (S754_finite s m e) = true ->
  Z.pos (digits2_pos m) = 53%Z -> (e <= 956)%Z ->
  exists m' e',
    rate_Annualized (getAllFundingRates (Some (S754_finite s m e)))
    = S754_finite s m' e'
    /\ Qabs (inject_Z (Z.pos m') * pow2 e' - 8760 * (inject_Z (Z.pos m) * pow2 e))
       <= 2 * EPSILON * (8760 * (inject_Z (Z.pos m) * pow2 e)).
Proof.
  intros Hv Hd He.
  assert (Special : m = (2 ^ 52)%positive /\ e = (-1074)%Z -> exists m' e',
    rate_Annualized (getAllFundingRates (Some (S754_finite s m e)))
    = S754_finite s m' e'
    /\ Qabs (inject_Z (Z.pos m') * pow2 e' - 8760 * (inject_Z (Z.pos m) * pow2 e))
       <= 2 * EPSILON * (8760 * (inject_Z (Z.pos m) * pow2 e))).
  { intros [-> ->]. destruct s.
    - eexists. eexists. split; [vm_compute; reflexivity |].
      apply Qle_bool_iff. vm_compute. reflexivity.
    - eexists. eexists. split; [vm_compute; reflexivity |].
      apply Qle_bool_iff. vm_compute. reflexivity. }
  rewrite annualized_unfold. pose proof (reads_back_signed s m e Hv) as RT.
  set (d := dec_val (toDecimal m e)) in *.
  assert (Hdp : 0 < d) by apply dec_val_pos.
  destruct (normal_result_range s d m e Hdp RT Hd) as [L | C].
  2: { unfold d. rewrite <- annualized_unfold. apply Special. exact C. }
  destruct (round_pos_finite_inv s d m e Hdp L RT) as [Bd Le].
  destruct (flog2_spec d Hdp) as [_ G2].
  assert (Hy : 0 < 8760 * d) by lra.
  assert (Ly : (-1022 <= flog2 (8760 * d) <= 1022)%Z).
  { split.
    - pose proof (flog2_mono d (8760 * d) Hdp ltac:(lra)). lia.
    - assert (flog2 (8760 * d) < 1023)%Z; [| lia].
      apply flog2_lt; [exact Hy |].
      assert (pow2 (flog2 d + 1) <= pow2 1009) by (apply pow2_le; lia).
      assert (E : pow2 1023 == 16384 * pow2 1009) by reflexivity.
      rewrite E. lra. }
  destruct (round_pos_error s (8760 * d) Hy Ly) as (m' & e' & P & By & _).
  exists m', e'. split; [exact P |].
  set (v := inject_Z (Z.pos m) * pow2 e) in *.
  set (v' := inject_Z (Z.pos m') * pow2 e') in *.
  apply Qabs_Qle_condition in Bd. apply Qabs_Qle_condition in By.
  assert (Eu : pow2 (-53) == 1 # 9007199254740992) by reflexivity.
  assert (Et : 2 * EPSILON == 1 # 2251799813685248) by reflexivity.
  rewrite Eu in Bd, By. rewrite Et.
  apply Qabs_Qle_condition. lra.
Qed.




Lemma zero_or_normal_below_inv (b : Z) (s : bool) (m : positive) (e : Z) :
  zero_or_normal_below b (S754_finite s m e) = true ->
  Z.pos (digits2_pos m) = 53%Z /\ (e + 53 <= b)%Z.
Proof.
  unfold zero_or_normal_below. intros H. apply andb_prop in H. destruct H as [H1 H2].
  apply Z.eqb_eq in H1. apply Z.leb_le in H2. split; assumption.
Qed.


Lemma finite_val_bounds (s : bool) (m : positive) (e : Z) :
  valid (S754_finite s m e) = true ->
  inject_Z (Z.pos m) * pow2 e < pow2 (e + 53)
  /\ ((-1074 < e)%Z -> pow2 (e + 52) <= inject_Z (Z.pos m) * pow2 e).
Proof.
  intros Hv. apply valid_finite in Hv. destruct Hv as [Hc _].
  destruct (digits2_bracket m) as [Hlo Hhi]. pose proof (pow2_pos e) as Hp.
  set (d := Z.pos (digits2_pos m)) in *. assert (0 < d)%Z by (unfold d; lia).
  split.
  - rewrite Z.add_comm, pow2_add, (pow2_Z 53) by lia.
    apply Qmult_lt_compat_r; [exact Hp |]. rewrite <- Zlt_Qlt.
    eapply Z.lt_le_trans; [exact Hhi |]. apply Z.pow_le_mono_r; lia.
  - intros He. assert (d = 53%Z) by lia.
    rewrite Z.add_comm, pow2_add, (pow2_Z 52) by lia.
    apply Qmult_le_compat_r; [| apply Qlt_le_weak; exact Hp]. rewrite <- Zle_Qle.
    replace 52%Z with (d - 1)%Z by lia. exact Hlo.
Qed.

Lemma gt_12_exceeds (z : number) :
  valid z = true -> (num_gt z (of_Z 12) = true <-> exceeds z 12).
Proof.
  intros Hv. change (of_Z 12) with (S754_finite false 6755399441055744 (-49)).
  unfold num_gt, SFltb, exceeds.
  destruct z as [s | s | | s m e]; cbn [SFcompare is_finite val].
  - split; [destruct s; discriminate | intros [H | [_ H]]; [discriminate | discriminate H]].
  - destruct s; split; try discriminate; auto.
    + intros [H | [H _]]; discriminate.
  - split; [discriminate | intros [H | [H _]]; discriminate].
  - destruct (finite_val_bounds s m e Hv) as [Hup Hlow].
    pose proof (val_pos m e) as Hpos.
    destruct s.
    + split; [discriminate | intros [H | [_ H]]; [discriminate | lra]].
    + destruct (Z.compare_spec (-49) e) as [E | L | G].
      * subst e. change (Pos.compare_cont Eq 6755399441055744 m)
          with (Pos.compare 6755399441055744 m).
        assert (Q12 : 12 < inject_Z (Z.pos m) * pow2 (-49)
                      <-> (6755399441055744 < m)%positive).
        { change (pow2 (-49)) with (1 # 562949953421312).
          unfold Qlt, Qmult, inject_Z. cbn [Qnum Qden]. lia. }
        rewrite Q12. clear Q12 Hup Hlow Hpos Hv.
        destruct (Pos.compare_spec 6755399441055744 m) as [E | L | G].
        -- split; [discriminate | intros [H | [_ H]]; [discriminate |]].
           rewrite <- E in H. exact (False_ind _ (Pos.lt_irrefl _ H)).
        -- split; [right; split; [reflexivity | exact L] | reflexivity].
        -- split; [discriminate | intros [H | [_ H]]; [discriminate |]].
           exact (False_ind _ (Pos.lt_irrefl _ (Pos.lt_trans _ _ _ H G))).
      * split; [| reflexivity]. intros _. right. split; [reflexivity |].
        assert (pow2 (-48 + 52) <= pow2 (e + 52)) by (apply pow2_le; lia).
        change (pow2 (-48 + 52)) with 16 in H. specialize (Hlow ltac:(lia)). lra.
      * split; [discriminate |]. intros [H | [_ H]]; [discriminate |].
        assert (pow2 (e + 53) <= pow2 (-50 + 53)) by (apply pow2_le; lia).
        change (pow2 (-50 + 53)) with 8 in H0. lra.
Qed.


End ProjectorFacts.

Import ProjectorFacts.

(* ================================================================= *)
(** ** Facts on the component *)

Module ComponentFacts.

Local Open Scope string_scope.

Lemma reachable_mirrors_chart (cfg : Config) :
  reachable cfg -> stored_open (component cfg) = tooltipOpen (chart_context cfg).
Proof.
  induction 1 as [| a b Ha IH Hstep].
  - reflexivity.
  - destruct Hstep as [cfg c | cfg v]; cbn; [reflexivity | exact IH].
Qed.

Lemma axis_labels_complete (data : option (list FundingChartDatum)) (st : State)
  (td : TooltipData) :
  (nearestDatum td <> None \/ latestDatum data <> None) ->
  (exists x, renderXAxisLabel data (Some td) = Normal x)
  /\ (exists y, renderYAxisLabel data st (Some td) = Normal y).
Proof.
  unfold renderXAxisLabel, renderYAxisLabel, tooltipDatum. cbn [deref bind].
  intros [H | H].
  - destruct (nearestDatum td); [| contradiction]. cbn. split; eexists; reflexivity.
  - destruct (nearestDatum td); cbn; [split; eexists; reflexivity |].
    destruct (latestDatum data); [| contradiction]. cbn. split; eexists; reflexivity.
Qed.

Lemma missing_label_is_empty (stringGetter : STRING_KEY -> option string) :
  stringGetter RATE_1H = None ->
  nth_error (toggleItems stringGetter) 0
  = Some {| item_value := "OneHour"; item_label := EmptyString |}.
Proof. intros H. unfold toggleItems. cbn. rewrite H. reflexivity. Qed.

End ComponentFacts.

Import ComponentFacts.

(* ================================================================= *)
(** ** The rate projector: claims C1 to C4 *)

Local Open Scope Q_scope.
Local Open Scope string_scope.







(** C3: [getAllFundingRates()] is [getAllFundingRates(0)], and both are the
    record with 0 at OneHour, EightHour and Annualized. *)
Theorem no_argument_is_zero :
  getAllFundingRates None = getAllFundingRates (Some (of_Z 0))
  /\ getAllFundingRates (Some (of_Z 0))
     = {| rate_OneHour := of_Z 0; rate_EightHour := of_Z 0;
          rate_Annualized := of_Z 0 |}.
Proof. split; [reflexivity | vm_compute; reflexivity]. Qed.




(* ================================================================= *)
(** ** The component: claims C5 to C10 *)

(** C5: the direction enum has the three values ToShort, ToLong and None;
    each of them has a colour in the object literal of [renderYAxisLabel],
    and two directions with the same colour are the same direction. *)
Theorem direction_color_total_distinct :
  (forall d, d = ToShort \/ d = ToLong \/ d = None_)
  /\ (forall d, exists c, directionColor d = Some c)
  /\ (forall d1 d2, directionColor d1 = directionColor d2 -> d1 = d2).
Proof.
  split; [| split].
  - intros []; auto.
  - intros []; eexists; reflexivity.
  - intros [] [] H; try reflexivity; discriminate H.
Qed.

(** C6, at the input where the code departs from it: with an empty data
    sequence the latest datum and the current rate are [undefined], and both
    axis-label callbacks, given tooltip data without a nearest datum, throw
    a [TypeError] instead of completing. *)
Theorem axis_labels_throw_on_empty_data (st : State) :
  let data := Some (@nil FundingChartDatum) in
  let td := Some {| nearestDatum := None |} in
  latestDatum data = None
  /\ latestFundingRate data st = None
  /\ renderXAxisLabel data td = Throw TypeError
  /\ renderYAxisLabel data st td = Throw TypeError.
Proof. cbv zeta. repeat split. Qed.

(** C7: in every configuration the chart and the component can reach, the
    overlay's [isShowing] is the negation of the chart's tooltip-open flag,
    so the overlay is hidden exactly while the tooltip is open; and a call of
    the registered callback changes nothing of the view but [isShowing]. *)
Theorem overlay_hidden_while_tooltip_open
  (stringGetter : STRING_KEY -> option string)
  (data : option (list FundingChartDatum)) (cfg : Config) :
  reachable cfg ->
  let view := render stringGetter data (component cfg) in
  overlay_isShowing view = negb (tooltipOpen (chart_context cfg))
  /\ overlay_hidden view = tooltipOpen (chart_context cfg)
  /\ (forall c : TooltipContext,
        let view' := render stringGetter data
                            (handle (component cfg) (onTooltipContext c)) in
        toggle_items view' = toggle_items view
        /\ toggle_value view' = toggle_value view
        /\ overlay_title view' = overlay_title view
        /\ output_value view' = output_value view
        /\ output_isNegative view' = output_isNegative view
        /\ overlay_isShowing view' = negb (tooltipOpen c)).
Proof.
  intros R. cbv zeta. pose proof (reachable_mirrors_chart cfg R) as M.
  unfold overlay_hidden, render. cbn [overlay_isShowing]. unfold isShowing.
  fold (stored_open (component cfg)). rewrite M.
  split; [reflexivity |]. split; [apply negb_involutive |].
  intros c. repeat split.
Qed.

(** C7 in the configuration reached when the chart opens its tooltip. *)
Lemma overlay_hidden_while_tooltip_open_witness :
  let opened := {| tooltipOpen := true; tooltipData := None |} in
  let cfg := {| chart_context := opened;
                component := handle mount (onTooltipContext opened) |} in
  let view := render (fun _ => None) None (component cfg) in
  overlay_isShowing view = negb (tooltipOpen (chart_context cfg))
  /\ overlay_hidden view = tooltipOpen (chart_context cfg)
  /\ (forall c : TooltipContext,
        let view' := render (fun _ => None) None
                            (handle (component cfg) (onTooltipContext c)) in
        toggle_items view' = toggle_items view
        /\ toggle_value view' = toggle_value view
        /\ overlay_title view' = overlay_title view
        /\ output_value view' = output_value view
        /\ output_isNegative view' = output_isNegative view
        /\ overlay_isShowing view' = negb (tooltipOpen c)).
Proof.
  exact (overlay_hidden_while_tooltip_open (fun _ => None) None _
           (reachable_step _ _ reachable_start
              (step_context start {| tooltipOpen := true; tooltipData := None |}))).
Defined.

(** C8: for every zoom value, [getCurve] returns the monotone-cubic curve
    when the zoom is above 12 (plus infinity included) and the step-after
    curve otherwise (NaN included). *)
Theorem getCurve_threshold (zoom : number) :
  valid zoom = true ->
  (exceeds zoom 12 -> getCurve zoom = curveMonotoneX)
  /\ (~ exceeds zoom 12 -> getCurve zoom = curveStepAfter).
Proof.
  intros Hv. pose proof (gt_12_exceeds zoom Hv) as G. unfold getCurve.
  destruct (num_gt zoom (of_Z 12)).
  - split; [reflexivity |]. intros N. exfalso. apply N, G. reflexivity.
  - split; [| reflexivity]. intros E. apply G in E. discriminate E.
Qed.

(** C8 at the zoom 13. *)
Lemma getCurve_threshold_witness :
  let zoom := of_Z 13 in
  (exceeds zoom 12 -> getCurve zoom = curveMonotoneX)
  /\ (~ exceeds zoom 12 -> getCurve zoom = curveStepAfter).
Proof. exact (getCurve_threshold (of_Z 13) eq_refl). Defined.

(** C9: the toggle offers OneHour, EightHour and Annualized, in every state
    exactly one of them is the selected one, a change selects the value
    chosen, the state on mount selects OneHour, and so does the start of a
    session whatever was selected in earlier ones. *)
Theorem toggle_three_way_starts_OneHour
  (stringGetter : STRING_KEY -> option string)
  (data : option (list FundingChartDatum)) :
  map item_value (toggleItems stringGetter)
  = map FundingRateResolution_value [OneHour; EightHour; Annualized]
  /\ (forall v, as_FundingRateResolution (FundingRateResolution_value v) = Some v)
  /\ (forall st, List.length (filter (selected (render stringGetter data st))
                                      (toggleItems stringGetter)) = 1%nat)
  /\ (forall st v,
        toggle_value (render stringGetter data (handle st (onValueChange v))) = v)
  /\ fundingRateView mount = OneHour
  /\ toggle_value (render stringGetter data mount) = OneHour
  /\ fundingRateView (session_end [onValueChange Annualized]) = Annualized
  /\ (forall earlier, fundingRateView (session_start earlier) = OneHour).
Proof.
  repeat split.
  - intros []; reflexivity.
  - intros [[] c]; reflexivity.
Qed.


(* ================================================================= *)
(** ** Further properties of the component *)

(** The datum with rate 0.0001 and direction ToLong, shown at the Annualized
    resolution through the y-axis label: the value is 0.876 and the accent
    colour is the negative one. *)
Example annualized_label_of_one_basis_point :
  let d := {| time := of_Z 0;
              fundingRate := round_pos false (1 # 10000);
              direction := ToLong |} in
  let st := handle mount (onValueChange Annualized) in
  renderYAxisLabel (Some [d]) st (Some {| nearestDatum := None |})
  = Normal {| y_type := SmallPercent;
              y_value := round_pos false (876 # 1000);
              accentColor := Some "var(--color-negative)" |}.
Proof. vm_compute. reflexivity. Qed.

(** When the tooltip data carries a nearest datum, or the data sequence has
    a latest datum, both axis-label callbacks complete. *)
Theorem axis_labels_complete_with_datum
  (data : option (list FundingChartDatum)) (st : State) (td : TooltipData) :
  (nearestDatum td <> None \/ latestDatum data <> None) ->
  (exists x, renderXAxisLabel data (Some td) = Normal x)
  /\ (exists y, renderYAxisLabel data st (Some td) = Normal y).
Proof. apply axis_labels_complete. Qed.

(** The same with one datum in the sequence and no nearest datum. *)
Lemma axis_labels_complete_with_datum_witness :
  let d := {| time := of_Z 0; fundingRate := of_Z 0; direction := None_ |} in
  let td := {| nearestDatum := None |} in
  (exists x, renderXAxisLabel (Some [d]) (Some td) = Normal x)
  /\ (exists y, renderYAxisLabel (Some [d]) mount (Some td) = Normal y).
Proof.
  cbv zeta. apply axis_labels_complete_with_datum. right. discriminate.
Defined.

(** With no localized string at all, every label of the toggle is the
    empty string. *)
Example toggle_labels_fall_back_to_empty :
  toggleItems (fun _ => None)
  = [ {| item_value := "OneHour"; item_label := EmptyString |};
      {| item_value := "EightHour"; item_label := EmptyString |};
      {| item_value := "Annualized"; item_label := EmptyString |} ].
Proof. reflexivity. Qed.

(* ================================================================= *)
(** ** Facts on strings of digits *)

Module DigitFacts.

Local Open Scope string_scope.

Lemma length_append (a b : string) :
  String.length (a ++ b) = (String.length a + String.length b)%nat.
Proof. induction a as [| c a IH]; simpl; [reflexivity | rewrite IH; reflexivity]. Qed.

Lemma length_zeros (k : nat) : String.length (zeros k) = k.
Proof. induction k as [| k IH]; simpl; [reflexivity | rewrite IH; reflexivity]. Qed.

Lemma substring_all (s : string) : substring 0 (String.length s) s = s.
Proof. induction s as [| c s IH]; simpl; [reflexivity | rewrite IH; reflexivity]. Qed.

Lemma substring_split (s : string) (a : nat) :
  (a <= String.length s)%nat ->
  substring 0 a s ++ substring a (String.length s - a) s = s.
Proof.
  revert a. induction s as [| c s IH]; intros a Ha; simpl in Ha.
  - assert (a = 0%nat) by lia. subst. reflexivity.
  - destruct a as [| a].
    + cbn [substring]. simpl String.length. simpl.
      rewrite substring_all. reflexivity.
    + cbn [substring]. simpl String.length. simpl. rewrite IH by lia. reflexivity.
Qed.

Lemma length_substring (s : string) (a b : nat) :
  (a + b <= String.length s)%nat -> String.length (substring a b s) = b.
Proof.
  revert a b. induction s as [| c s IH]; intros a b H; simpl in H.
  - assert (a = 0%nat /\ b = 0%nat) as [-> ->] by lia. reflexivity.
  - destruct a as [| a].
    + destruct b as [| b]; [reflexivity |]. cbn [substring]. simpl.
      rewrite (IH 0%nat b) by lia. reflexivity.
    + cbn [substring]. apply IH. lia.
Qed.

Lemma to_uint_nonnil (n : N) : N.to_uint n <> Decimal.Nil.
Proof.
  intros H. pose proof (DecimalN.Unsigned.of_to n) as E. rewrite H in E.
  cbn in E. subst n. discriminate H.
Qed.

Lemma digits_of_nonempty (n : N) : digits_of n <> EmptyString.
Proof.
  unfold digits_of. pose proof (to_uint_nonnil n) as H.
  destruct (N.to_uint n); try contradiction; discriminate.
Qed.

(** The digits of a number read back as the number. *)
Lemma read_digits_of (n : N) : read_digits (digits_of n) = Some n.
Proof.
  unfold read_digits, digits_of.
  rewrite NilZero.usu by apply to_uint_nonnil.
  cbn [option_map]. rewrite DecimalN.Unsigned.of_to. reflexivity.
Qed.

(** Zeros in front change nothing of what is read. *)
Lemma read_digits_zeros (j : nat) (s : string) :
  s <> EmptyString -> read_digits (zeros j ++ s) = read_digits s.
Proof.
  intros Hs. induction j as [| j IH]; [reflexivity |].
  rewrite <- IH. unfold read_digits.
  change (zeros (S j) ++ s) with (String "0"%char (zeros j ++ s)).
  assert (Hne : zeros j ++ s <> EmptyString).
  { destruct j; simpl; [exact Hs | discriminate]. }
  destruct (zeros j ++ s) as [| c t] eqn:E; [contradiction |].
  cbn [NilZero.uint_of_string NilEmpty.uint_of_string].
  destruct (uint_of_char c (NilEmpty.uint_of_string t)); reflexivity.
Qed.

End DigitFacts.

Import DigitFacts.

(* ================================================================= *)
(** ** Facts on [toFixed], on the sign of the projections, on the data and on event runs *)

Module FormatFacts.

Local Open Scope string_scope.
Local Open Scope Q_scope.

Lemma append_assoc (a b c : string) : ((a ++ b) ++ c = a ++ (b ++ c))%string.
Proof. induction a as [| x a IH]; simpl; [reflexivity | rewrite IH; reflexivity]. Qed.

(** With at least one decimal, [fixed_digits] prints an integer part, a
    point and exactly [f] decimals, and the digits read back as [n]. *)
Lemma fixed_digits_shape (sign : string) (n : N) (f : Z) :
  (1 <= f)%Z ->
  exists int frac,
    fixed_digits sign n f = (sign ++ int ++ "." ++ frac)%string
    /\ String.length frac = Z.to_nat f
    /\ (1 <= String.length int)%nat
    /\ read_digits (int ++ frac) = Some n.
Proof.
  intros Hf. unfold fixed_digits.
  replace (f =? 0)%Z with false by (symmetry; apply Z.eqb_neq; lia).
  set (fd := Z.to_nat f). assert (Hfd : (1 <= fd)%nat) by (unfold fd; lia).
  set (m0 := digits_of n).
  set (m := if (String.length m0 <=? fd)%nat
            then (zeros (fd + 1 - String.length m0) ++ m0)%string else m0).
  assert (Hm : (fd + 1 <= String.length m)%nat /\ exists j, m = (zeros j ++ m0)%string).
  { unfold m. destruct (Nat.leb_spec (String.length m0) fd) as [L | L].
    - split; [| eexists; reflexivity].
      rewrite length_append, length_zeros. lia.
    - split; [lia | exists 0%nat; reflexivity]. }
  destruct Hm as [Hlen [j Hj]].
  remember (String.length m) as k eqn:Ek.
  exists (substring 0 (k - fd) m), (substring (k - fd) fd m).
  split; [reflexivity |]. split; [apply length_substring; lia |].
  split; [rewrite length_substring by lia; lia |].
  pose proof (substring_split m (k - fd) ltac:(lia)) as S.
  rewrite <- Ek in S. replace (k - (k - fd))%nat with fd in S by lia.
  rewrite S, Hj, read_digits_zeros by apply digits_of_nonempty.
  apply read_digits_of.
Qed.

(** The integer [toFixed] prints is within one half of the scaled value. *)
Lemma nearest_integer (t : Q) :
  0 <= t ->
  Qabs (inject_Z (Z.of_N (Z.to_N (Qfloor (t + (1 # 2))))) - t) <= 1 # 2.
Proof.
  intros Ht. pose proof (Qfloor_le (t + (1 # 2))) as Hlo.
  pose proof (Qlt_floor (t + (1 # 2))) as Hhi.
  rewrite inject_Z_plus in Hhi. change (inject_Z 1) with 1 in Hhi.
  assert (H0 : (0 <= Qfloor (t + (1 # 2)))%Z).
  { change 0%Z with (Qfloor 0). apply Qfloor_resp_le. lra. }
  rewrite Z2N.id by exact H0. apply Qabs_Qle_condition. lra.
Qed.

Lemma toFixed_shape (x : number) (f : Z) :
  (1 <= f <= 100)%Z -> is_finite x = true -> Qabs (val x) < pow10 21 ->
  exists n int frac,
    toFixed x f = Some (minus_sign x ++ int ++ "." ++ frac)%string
    /\ String.length frac = Z.to_nat f
    /\ (1 <= String.length int)%nat
    /\ read_digits (int ++ frac) = Some n
    /\ Qabs (inject_Z (Z.of_N n) - Qabs (val x) * pow10 f) <= 1 # 2.
Proof.
  intros Hf Hfin Hmag. unfold toFixed.
  replace ((f <? 0)%Z || (100 <? f)%Z) with false
    by (symmetry; apply orb_false_iff; split; [apply Z.ltb_ge | apply Z.ltb_ge]; lia).
  destruct x as [s | s | | s m e]; try discriminate Hfin.
  - destruct (fixed_digits_shape EmptyString 0 f ltac:(lia)) as (int & frac & E & L1 & L2 & R).
    exists 0%N, int, frac. cbn [minus_sign]. rewrite E.
    repeat split; try assumption.
    cbn [val]. assert (Z0 : inject_Z (Z.of_N 0) - Qabs 0 * pow10 f == 0)
      by (change (Qabs 0) with 0; change (inject_Z (Z.of_N 0)) with 0; ring).
    rewrite Z0. discriminate.
  - pose proof (val_pos m e) as Hpos.
    set (a := inject_Z (Z.pos m) * pow2 e) in *.
    assert (Ea : Qabs (val (S754_finite s m e)) == a).
    { cbn [val]. fold a. destruct s; [rewrite Qabs_neg by lra; ring | apply Qabs_pos; lra]. }
    rewrite Ea in Hmag.
    replace (Qle_bool (pow10 21) a) with false.
    2: { symmetry. apply not_true_is_false. rewrite Qle_bool_iff. lra. }
    assert (Hp : 0 < pow10 f) by (apply Qpower_0_lt; reflexivity).
    set (n := Z.to_N (Qfloor (a * pow10 f + (1 # 2)))).
    destruct (fixed_digits_shape (if s then "-" else EmptyString)%string n f ltac:(lia))
      as (int & frac & E & L1 & L2 & R).
    exists n, int, frac.
    assert (Es : minus_sign (S754_finite s m e) = (if s then "-" else EmptyString)%string)
      by (destruct s; reflexivity).
    rewrite Es, E. repeat split; try assumption.
    assert (Eab : inject_Z (Z.of_N n) - Qabs (val (S754_finite s m e)) * pow10 f
                  == inject_Z (Z.of_N n) - a * pow10 f) by (rewrite Ea; reflexivity).
    rewrite Eab. unfold n. apply nearest_integer.
    apply Qmult_le_0_compat; lra.
Qed.

(** Rounding a positive real that is at least the least positive number
    gives a non-zero result of the sign asked for. *)
Lemma round_pos_nonzero (s : bool) (q : Q) :
  pow2 (-1074) <= q ->
  round_pos s q = S754_infinity s \/ exists m e, round_pos s q = S754_finite s m e.
Proof.
  intros Hq. assert (Hq0 : 0 < q).
  { eapply Qlt_le_trans; [apply (pow2_pos (-1074)) | exact Hq]. }
  unfold round_pos. set (e := Z.max (flog2 q - 52) (-1074)).
  assert (H1 : (1 <= rne (q / pow2 e))%Z).
  { apply rne_ge. apply Qle_shift_div_l; [apply pow2_pos |].
    change (inject_Z 1) with 1. rewrite Qmult_1_l.
    destruct (Z.max_spec (flog2 q - 52) (-1074)) as [[_ E] | [_ E]]; fold e in E; rewrite E.
    - exact Hq.
    - destruct (flog2_spec q Hq0) as [G _].
      eapply Qle_trans; [| exact G]. apply pow2_le. lia. }
  unfold pack. destruct (rne (q / pow2 e) =? 2 ^ 53)%Z.
  - change (2 ^ 52)%Z with (Z.pos 4503599627370496). cbv iota beta.
    destruct (e + 1 <=? 971)%Z; [right; eexists; eexists; reflexivity | left; reflexivity].
  - destruct (rne (q / pow2 e)) as [| p | p]; try lia.
    destruct (e <=? 971)%Z; [right; eexists; eexists; reflexivity | left; reflexivity].
Qed.

(** An argument that rounds to a non-zero number is at least half the
    least positive number. *)
Lemma round_pos_finite_lower (s : bool) (q : Q) (m : positive) (e : Z) :
  0 < q -> round_pos s q = S754_finite s m e -> pow2 (-1075) <= q.
Proof.
  intros Hq H. destruct (flog2_spec q Hq) as [G1 G2].
  destruct (Z_le_gt_dec (-1075) (flog2 q)) as [L | L].
  - eapply Qle_trans; [| exact G1]. apply pow2_le. exact L.
  - exfalso. unfold round_pos in H.
    replace (Z.max (flog2 q - 52) (-1074)) with (-1074)%Z in H by lia.
    assert (Ht : q / pow2 (-1074) < 1 # 2).
    { apply Qlt_shift_div_r; [apply pow2_pos |].
      assert (E : (1 # 2) * pow2 (-1074) == pow2 (-1075)) by reflexivity.
      rewrite E. eapply Qlt_le_trans; [exact G2 |]. apply pow2_le. lia. }
    assert (Ht0 : 0 <= q / pow2 (-1074)).
    { apply Qle_shift_div_l; [apply pow2_pos |]. lra. }
    assert (R : rne (q / pow2 (-1074)) = 0%Z).
    { unfold rne. assert (F : Qfloor (q / pow2 (-1074)) = 0%Z).
      { pose proof (Qfloor_resp_le _ _ Ht0) as A. change (Qfloor 0) with 0%Z in A.
        pose proof (Qfloor_le (q / pow2 (-1074))) as C.
        destruct (Z_le_gt_dec (Qfloor (q / pow2 (-1074))) 0) as [D | D]; [lia |].
        assert (H1 : inject_Z 1 <= inject_Z (Qfloor (q / pow2 (-1074))))
          by (rewrite <- Zle_Qle; lia).
        change (inject_Z 1) with 1 in H1. lra. }
      rewrite F.
      assert (C : Qcompare (q / pow2 (-1074) - inject_Z 0) (1 # 2) = Lt).
      { rewrite <- Qlt_alt. change (inject_Z 0) with 0. lra. }
      rewrite C. reflexivity. }
    rewrite R in H. discriminate H.
Qed.

(** The scaled projections of a finite non-zero rate are non-zero and
    have the sign of the rate. *)
Lemma scaled_projection_signed (s : bool) (m : positive) (e : Z) (k : Q) :
  valid (S754_finite s m e) = true -> 2 <= k ->
  round_pos s (k * dec_val (toDecimal m e)) = S754_infinity s
  \/ exists m' e', round_pos s (k * dec_val (toDecimal m e)) = S754_finite s m' e'.
Proof.
  intros Hv Hk. apply round_pos_nonzero.
  pose proof (reads_back_signed s m e Hv) as RT.
  pose proof (round_pos_finite_lower s _ m e (dec_val_pos _) RT) as L.
  assert (E : pow2 (-1074) == 2 * pow2 (-1075)) by reflexivity.
  rewrite E. pose proof (pow2_pos (-1075)).
  apply Qle_trans with (2 * dec_val (toDecimal m e)); [lra |].
  apply Qmult_le_compat_r; [exact Hk | lra].
Qed.

Lemma projection_negative (r : number) (view : FundingRateResolution) :
  valid r = true ->
  num_lt (rate_at (getAllFundingRates (Some r)) view) (of_Z 0) = num_lt r (of_Z 0).
Proof.
  intros Hv. destruct view; [reflexivity | |].
  - cbn [rate_at]. destruct r as [s | s | | s m e]; try (destruct s; reflexivity); [reflexivity |].
    rewrite eight_hour_unfold. change (pow2 3) with 8.
    destruct (scaled_projection_signed s m e 8 Hv ltac:(lra)) as [E | (m' & e' & E)];
      rewrite E; destruct s; reflexivity.
  - cbn [rate_at]. destruct r as [s | s | | s m e]; try (destruct s; reflexivity); [reflexivity |].
    rewrite annualized_unfold.
    destruct (scaled_projection_signed s m e 8760 Hv ltac:(lra)) as [E | (m' & e' & E)];
      rewrite E; destruct s; reflexivity.
Qed.

(** The latest datum of a sequence that ends with [d]. *)
Lemma latestDatum_app (l : list FundingChartDatum) (d : FundingChartDatum) :
  latestDatum (Some (l ++ [d])%list) = Some d.
Proof.
  unfold latestDatum, at_index. rewrite length_app. cbn [List.length].
  replace (Z.of_nat (List.length l + 1) - 1 <? 0)%Z with false
    by (symmetry; apply Z.ltb_ge; lia).
  replace (Z.to_nat (Z.of_nat (List.length l + 1) - 1)) with (List.length l) by lia.
  rewrite nth_error_app2 by lia. rewrite Nat.sub_diag. reflexivity.
Qed.

(** After a run of events each cell holds what was written to it last. *)
Lemma run_cells (evs : list Event) (st : State) :
  fundingRateView (run evs st)
  = match last_value_change evs with
    | Some v => v
    | None => fundingRateView st
    end
  /\ tooltipContext (run evs st)
     = match last_context evs with
       | Some c => Some c
       | None => tooltipContext st
       end.
Proof.
  unfold run. revert st. induction evs as [| ev evs IH]; intros st; [split; reflexivity |].
  cbn [fold_left last_value_change last_context].
  destruct (IH (handle st ev)) as [IH1 IH2]. rewrite IH1, IH2.
  split.
  - destruct (last_value_change evs); [reflexivity | destruct ev; reflexivity].
  - destruct (last_context evs); [reflexivity | destruct ev; reflexivity].
Qed.

End FormatFacts.

Import FormatFacts.

(* ================================================================= *)
(** ** Further properties: data, events, sign and tick labels *)

Local Open Scope Q_scope.
Local Open Scope string_scope.

(** The latest datum is the last element of the data, and there is none
    exactly when the data is [undefined] or empty. *)
Theorem latestDatum_is_last :
  (forall l d, latestDatum (Some (l ++ [d])%list) = Some d)
  /\ (forall data, latestDatum data = None <-> data = None \/ data = Some []).
Proof.
  split; [exact latestDatum_app |]. intros [l |]; split; intros H.
  - right. destruct l as [| x l]; [reflexivity |]. exfalso.
    destruct (exists_last (l := x :: l)) as (l' & d & E); [discriminate |].
    rewrite E, latestDatum_app in H. discriminate H.
  - destruct H as [H | H]; [discriminate H |]. injection H as ->. reflexivity.
  - left. reflexivity.
  - reflexivity.
Qed.

(** An axis-label callback throws exactly when it is called without
    tooltip data, or with tooltip data that has no nearest datum while
    there is no latest datum either. *)
Theorem axis_labels_throw_iff
  (data : option (list FundingChartDatum)) (st : State)
  (td : option TooltipData) :
  let no_datum :=
    td = None
    \/ exists t, td = Some t /\ nearestDatum t = None /\ latestDatum data = None in
  (renderXAxisLabel data td = Throw TypeError <-> no_datum)
  /\ (renderYAxisLabel data st td = Throw TypeError <-> no_datum).
Proof.
  cbv zeta. unfold renderXAxisLabel, renderYAxisLabel, tooltipDatum.
  destruct td as [[nd] |]; cbn [deref bind nearestDatum].
  - destruct nd as [nd |]; cbn [deref bind].
    + split; (split; [discriminate |]);
        intros [H | (t & E & N & _)]; [discriminate | | discriminate |];
        injection E as <-; discriminate N.
    + destruct (latestDatum data) as [d |]; cbn [deref bind].
      * split; (split; [discriminate |]);
          intros [H | (t & _ & _ & N)]; discriminate.
      * split; (split; [intros _; right; eexists; repeat split | reflexivity]).
  - split; (split; [intros _; left; reflexivity | reflexivity]).
Qed.

(** A nearest datum takes precedence over the latest datum: the labels show
    its time, its projected rate and the colour of its direction whatever the
    data holds.  Without one they show the last element of the data.  A label
    that is returned always has an accent colour. *)
Theorem axis_labels_show_nearest_datum
  (data : option (list FundingChartDatum)) (st : State) :
  (forall nd,
     renderXAxisLabel data (Some {| nearestDatum := Some nd |})
     = Normal {| x_type := DateTime; x_value := time (datum nd) |}
     /\ renderYAxisLabel data st (Some {| nearestDatum := Some nd |})
        = Normal {| y_type := SmallPercent;
                    y_value := rate_at (getAllFundingRates
                                          (Some (fundingRate (datum nd))))
                                       (fundingRateView st);
                    accentColor := directionColor (direction (datum nd)) |})
  /\ (forall l d,
        renderXAxisLabel (Some (l ++ [d])%list) (Some {| nearestDatum := None |})
        = Normal {| x_type := DateTime; x_value := time d |}
        /\ renderYAxisLabel (Some (l ++ [d])%list) st (Some {| nearestDatum := None |})
           = Normal {| y_type := SmallPercent;
                       y_value := rate_at (getAllFundingRates
                                             (Some (fundingRate d)))
                                          (fundingRateView st);
                       accentColor := directionColor (direction d) |})
  /\ (forall td y, renderYAxisLabel data st td = Normal y ->
        exists c, accentColor y = Some c).
Proof.
  split; [| split].
  - intros nd. split; reflexivity.
  - intros l d. unfold renderXAxisLabel, renderYAxisLabel, tooltipDatum.
    cbn [deref bind nearestDatum].
    rewrite latestDatum_app. split; reflexivity.
  - intros td y. unfold renderYAxisLabel, tooltipDatum.
    destruct td as [[nd] |]; cbn [deref bind nearestDatum]; [| discriminate].
    destruct nd as [nd |]; cbn [deref bind].
    + intros H. injection H as <-. cbn [accentColor].
      destruct (direction (datum nd)); eexists; reflexivity.
    + destruct (latestDatum data) as [d |]; cbn [deref bind]; [| discriminate].
      intros H. injection H as <-. cbn [accentColor].
      destruct (direction d); eexists; reflexivity.
Qed.

(** After any run of events each of the two cells holds what was written to
    it last, or what it held before when the run does not write to it; so the
    overlay is showing exactly when the last context stored is not open. *)
Theorem run_last_write_wins
  (stringGetter : STRING_KEY -> option string)
  (data : option (list FundingChartDatum)) (evs : list Event) (st : State) :
  fundingRateView (run evs st)
  = match last_value_change evs with
    | Some v => v
    | None => fundingRateView st
    end
  /\ tooltipContext (run evs st)
     = match last_context evs with
       | Some c => Some c
       | None => tooltipContext st
       end
  /\ overlay_isShowing (render stringGetter data (run evs st))
     = negb match last_context evs with
            | Some c => tooltipOpen c
            | None => stored_open st
            end.
Proof.
  pose proof (run_cells evs st) as A.
  destruct A as [A1 A2]. split; [exact A1 |]. split; [exact A2 |].
  cbn [render overlay_isShowing]. unfold isShowing, stored_open. rewrite A2.
  destruct (last_context evs); reflexivity.
Qed.

(** After any run of events the current rate is the projection, at the
    resolution selected last, of the y value the series plots for the latest
    datum, and there is none exactly when nothing is plotted for it; once
    OneHour is selected the current rate is the plotted value itself. *)
Theorem current_rate_projects_plotted_value
  (data : option (list FundingChartDatum)) (evs : list Event) (st : State) :
  latestFundingRate data (run evs st)
  = option_map
      (fun y => rate_at (getAllFundingRates (Some y))
                        match last_value_change evs with
                        | Some v => v
                        | None => fundingRateView st
                        end)
      (yAccessor (latestDatum data))
  /\ latestFundingRate data (run (evs ++ [onValueChange OneHour])%list st)
     = yAccessor (latestDatum data).
Proof.
  split.
  - unfold latestFundingRate. destruct (run_cells evs st) as [A _]. rewrite A.
    destruct (latestDatum data); reflexivity.
  - unfold latestFundingRate, run. rewrite fold_left_app. cbn [fold_left handle].
    destruct (latestDatum data); reflexivity.
Qed.

(** The projections of the negated rate are the negated projections, for
    every rate that is neither zero nor NaN. *)
Theorem projections_of_negated_rate (r : number) :
  truthy r = true ->
  let a := getAllFundingRates (Some r) in
  let b := getAllFundingRates (Some (num_neg r)) in
  rate_OneHour b = num_neg (rate_OneHour a)
  /\ rate_EightHour b = num_neg (rate_EightHour a)
  /\ rate_Annualized b = num_neg (rate_Annualized a).
Proof.
  intros Ht. cbv zeta. split; [reflexivity |].
  destruct r as [s | s | | s m e]; try discriminate Ht.
  - destruct s; split; reflexivity.
  - unfold num_neg. cbn [SFopp].
    rewrite !eight_hour_unfold, !annualized_unfold.
    rewrite (round_pos_sign (negb s)), (round_pos_sign s).
    rewrite (round_pos_sign (negb s) (8760 * _)), (round_pos_sign s (8760 * _)).
    destruct s; cbn [negb];
      split;
      match goal with
      | |- context [round_pos false ?q] => destruct (round_pos false q) as [[] | [] | | [] ? ?]
      end; reflexivity.
Qed.

Lemma projections_of_negated_rate_witness :
  let r := S754_finite false 5902958103587057 (-69) in
  let a := getAllFundingRates (Some r) in
  let b := getAllFundingRates (Some (num_neg r)) in
  rate_OneHour b = num_neg (rate_OneHour a)
  /\ rate_EightHour b = num_neg (rate_EightHour a)
  /\ rate_Annualized b = num_neg (rate_Annualized a).
Proof.
  exact (projections_of_negated_rate (S754_finite false 5902958103587057 (-69))
           eq_refl).
Defined.

(** The colour of the current rate does not depend on the resolution: with
    a latest datum whose rate is a number, [isNegative] is [rate < 0] of the
    hourly rate at every resolution, so a change of resolution keeps it. *)
Theorem current_rate_colour_ignores_resolution
  (stringGetter : STRING_KEY -> option string)
  (data : option (list FundingChartDatum)) (st : State)
  (d : FundingChartDatum) (v : FundingRateResolution) :
  latestDatum data = Some d -> valid (fundingRate d) = true ->
  output_isNegative (render stringGetter data st)
  = num_lt (fundingRate d) (of_Z 0)
  /\ output_isNegative (render stringGetter data (handle st (onValueChange v)))
     = output_isNegative (render stringGetter data st)
  /\ output_color (output_isNegative
                     (render stringGetter data (handle st (onValueChange v))))
     = output_color (output_isNegative (render stringGetter data st)).
Proof.
  intros HL Hv.
  assert (A : forall st', output_isNegative (render stringGetter data st')
                          = num_lt (fundingRate d) (of_Z 0)).
  { intros st'. cbn [render output_isNegative]. unfold latestFundingRate.
    rewrite HL. cbn [ToNumber]. apply projection_negative. exact Hv. }
  rewrite !A. repeat split.
Qed.

Lemma current_rate_colour_ignores_resolution_witness :
  let d := {| time := of_Z 0;
              fundingRate := S754_finite true 5902958103587057 (-69);
              direction := ToShort |} in
  output_isNegative (render (fun _ => None) (Some [d]) mount)
  = num_lt (fundingRate d) (of_Z 0)
  /\ output_isNegative
       (render (fun _ => None) (Some [d]) (handle mount (onValueChange Annualized)))
     = output_isNegative (render (fun _ => None) (Some [d]) mount)
  /\ output_color (output_isNegative
                     (render (fun _ => None) (Some [d])
                             (handle mount (onValueChange Annualized))))
     = output_color (output_isNegative (render (fun _ => None) (Some [d]) mount)).
Proof.
  exact (current_rate_colour_ignores_resolution (fun _ => None)
           (Some [{| time := of_Z 0;
                     fundingRate := S754_finite true 5902958103587057 (-69);
                     direction := ToShort |}])
           mount _ Annualized eq_refl eq_refl).
Defined.

(** For a rate that is zero or normal and below [2^1009] the magnitudes
    grow with the horizon: |OneHour| <= |EightHour| <= |Annualized|. *)
Theorem magnitudes_grow_with_horizon (r : number) :
  valid r = true -> zero_or_normal_below 1009 r = true ->
  let rates := getAllFundingRates (Some r) in
  Qabs (val (rate_OneHour rates)) <= Qabs (val (rate_EightHour rates))
  /\ Qabs (val (rate_EightHour rates)) <= Qabs (val (rate_Annualized rates)).
Proof.
  intros Hv Hr. cbv zeta.
  destruct r as [s | s | | s m e]; try discriminate Hr.
  - destruct s; vm_compute; split; discriminate.
  - destruct (zero_or_normal_below_inv _ _ _ _ Hr) as [Hd He].
    rewrite (eight_hour_normal_finite s m e Hv Hd) by lia.
    destruct (annualized_normal s m e Hv Hd ltac:(lia)) as (m' & e' & P & B).
    rewrite P. cbn [rate_OneHour getAllFundingRates].
    assert (Ev : forall t p x, Qabs (val (S754_finite t p x)) == inject_Z (Z.pos p) * pow2 x).
    { intros t p x. pose proof (val_pos p x). cbn [val].
      destruct t; [rewrite Qabs_neg by lra; ring | apply Qabs_pos; lra]. }
    rewrite !Ev. pose proof (val_pos m e) as Hpos.
    assert (E3 : inject_Z (Z.pos m) * pow2 (e + 3) == 8 * (inject_Z (Z.pos m) * pow2 e)).
    { rewrite pow2_add. change (pow2 3) with 8. ring. }
    rewrite E3.
    set (v := inject_Z (Z.pos m) * pow2 e) in *.
    set (v' := inject_Z (Z.pos m') * pow2 e') in *.
    assert (Et : 2 * EPSILON == 1 # 2251799813685248) by reflexivity.
    rewrite Et in B. apply Qabs_Qle_condition in B. split; lra.
Qed.

Lemma magnitudes_grow_with_horizon_witness :
  let r := S754_finite true 5902958103587057 (-69) in
  let rates := getAllFundingRates (Some r) in
  Qabs (val (rate_OneHour rates)) <= Qabs (val (rate_EightHour rates))
  /\ Qabs (val (rate_EightHour rates)) <= Qabs (val (rate_Annualized rates)).
Proof.
  exact (magnitudes_grow_with_horizon (S754_finite true 5902958103587057 (-69))
           eq_refl eq_refl).
Defined.

(** A tick label throws exactly when the configured number of decimals is
    outside 0..100, whatever the value and the resolution (NaN and the
    infinities included). *)
Theorem tickFormatY_throws_iff (SMALL_PERCENT_DECIMALS : Z)
  (view : FundingRateResolution) (value : option number) :
  tickFormatY SMALL_PERCENT_DECIMALS view value = None
  <-> (SMALL_PERCENT_DECIMALS < 0 \/ 100 < SMALL_PERCENT_DECIMALS)%Z.
Proof.
  unfold tickFormatY, toFixed.
  destruct (Z.ltb_spec SMALL_PERCENT_DECIMALS 0) as [A | A];
    destruct (Z.ltb_spec 100 SMALL_PERCENT_DECIMALS) as [B | B]; cbn [orb];
    split; auto; try discriminate; intros [C | C]; lia.
Qed.

(** With 1 to 100 decimals configured, the tick label of a value whose
    hundredfold projection [x] is finite and below [10^21] in magnitude is a
    sign, an integer part, a point, exactly that many decimals and a percent
    sign; the digits read back as an integer within one half of
    [|x| * 10^decimals]. *)
Theorem tickFormatY_fixed_decimals (SMALL_PERCENT_DECIMALS : Z)
  (view : FundingRateResolution) (value : option number) :
  (1 <= SMALL_PERCENT_DECIMALS <= 100)%Z ->
  let x := num_mul (rate_at (getAllFundingRates value) view) (of_Z 100) in
  is_finite x = true -> Qabs (val x) < pow10 21 ->
  exists n int frac,
    tickFormatY SMALL_PERCENT_DECIMALS view value
    = Some (minus_sign x ++ int ++ "." ++ frac ++ "%")
    /\ String.length frac = Z.to_nat SMALL_PERCENT_DECIMALS
    /\ (1 <= String.length int)%nat
    /\ read_digits (int ++ frac) = Some n
    /\ Qabs (inject_Z (Z.of_N n)
             - Qabs (val x) * pow10 SMALL_PERCENT_DECIMALS) <= 1 # 2.
Proof.
  intros Hf x Hfin Hmag.
  destruct (toFixed_shape x SMALL_PERCENT_DECIMALS Hf Hfin Hmag)
    as (n & int & frac & E & L1 & L2 & R & B).
  exists n, int, frac. unfold tickFormatY. fold x. rewrite E.
  repeat split; try assumption.
  rewrite !append_assoc. reflexivity.
Qed.

(** The tick label of the rate 0.0001 at the Annualized resolution, with
    four decimals. *)
Lemma tickFormatY_fixed_decimals_witness :
  let x := num_mul (rate_at (getAllFundingRates
                               (Some (round_pos false (1 # 10000))))
                            Annualized) (of_Z 100) in
  exists n int frac,
    tickFormatY 4 Annualized (Some (round_pos false (1 # 10000)))
    = Some (minus_sign x ++ int ++ "." ++ frac ++ "%")
    /\ String.length frac = Z.to_nat 4
    /\ (1 <= String.length int)%nat
    /\ read_digits (int ++ frac) = Some n
    /\ Qabs (inject_Z (Z.of_N n) - Qabs (val x) * pow10 4) <= 1 # 2.
Proof.
  cbv zeta.
  apply (tickFormatY_fixed_decimals 4 Annualized
           (Some (round_pos false (1 # 10000)))).
  - lia.
  - vm_compute. reflexivity.
  - vm_compute. reflexivity.
Defined.

(** The toggle and the overlay title ask the localization for the key of
    their own resolution, and no lookup in the two object literals misses:
    every resolution has its item, labelled with its string or, when that is
    missing or empty, with the empty string; the title is the string of the
    selected resolution, [undefined] when missing. *)
Theorem labels_use_resolution_keys
  (stringGetter : STRING_KEY -> option string)
  (data : option (list FundingChartDatum)) (st : State) :
  (forall v, In {| item_value := FundingRateResolution_value v;
                   item_label := or_empty (stringGetter (toggle_key v)) |}
                (toggleItems stringGetter))
  /\ overlay_title (render stringGetter data st)
     = stringGetter (title_key (fundingRateView st))
  /\ (forall a, or_empty a = EmptyString <-> a = None \/ a = Some EmptyString).
Proof.
  split; [| split].
  - intros []; cbn; auto.
  - destruct st as [[] c]; reflexivity.
  - intros [s |]; cbn [or_empty].
    + destruct (String.eqb_spec s EmptyString) as [E | N].
      * subst. split; auto.
      * split; [intros H; contradiction | intros [H | H]; [discriminate | congruence]].
    + split; auto.
Qed.

(** [MARKET_FILTER_LABELS] has a label for every filter, different filters
    have different labels, and a string is a key of it exactly when it is the
    value of a filter (so ["ALL"], which is not ["all"], is none). *)
Theorem market_filter_labels_total :
  (forall f, exists k,
      lookup Markets.MARKET_FILTER_LABELS (Markets.MarketFilters_value f) = Some k)
  /\ (forall f g,
        lookup Markets.MARKET_FILTER_LABELS (Markets.MarketFilters_value f)
        = lookup Markets.MARKET_FILTER_LABELS (Markets.MarketFilters_value g) ->
        f = g)
  /\ (forall s, lookup Markets.MARKET_FILTER_LABELS s <> None
                <-> exists f, s = Markets.MarketFilters_value f)
  /\ lookup Markets.MARKET_FILTER_LABELS "ALL" = None.
Proof.
  split; [| split; [| split]].
  - intros []; eexists; reflexivity.
  - intros [] [] H; try reflexivity; discriminate H.
  - intros s. unfold Markets.MARKET_FILTER_LABELS. cbn [lookup]. split.
    + destruct (String.eqb_spec (Markets.MarketFilters_value Markets.ALL) s) as [E | _];
        [intros _; exists Markets.ALL; symmetry; exact E |].
      destruct (String.eqb_spec (Markets.MarketFilters_value Markets.LAYER_1) s) as [E | _];
        [intros _; exists Markets.LAYER_1; symmetry; exact E |].
      destruct (String.eqb_spec (Markets.MarketFilters_value Markets.DEFI) s) as [E | _];
        [intros _; exists Markets.DEFI; symmetry; exact E |].
      intros H. contradiction.
    + intros [[] ->]; discriminate.
  - reflexivity.
Qed.
